(** * SEO analysis pipeline: a shallow embedding and its properties

    The development follows the Python package module by module:
    [keyword_utils], [readability_utils], [performance_utils],
    [ai_search_optimizer], [content_analyzer], [seo_analyzer] and [app].

    Conventions of the embedding.
    - A Python [str] is a list of Unicode code points ([pystr]); the regular
      expressions of the package only mention ASCII classes, while
      [str.strip] and [str.split] use Python's Unicode white space.
    - A Python [int] is a [Z]; a length or a count is a [nat].
    - A Python [dict] with string keys is a [gmap string _]; a [Counter],
      whose order of insertion matters, is an association list.
    - A Python [float] is represented by a rational ([Q]) and arithmetic on
      floats by the exact arithmetic of [Q]: a value of the model is the
      value of the program up to the rounding of binary floating point, and
      the result of [round] is the decimal that the float returned prints
      as.  The properties stated of such values leave room for that
      rounding.
    - Exceptions are values: a computation that can raise returns an
      [outcome].
    - The network and the clocks are inputs: a world gives the outcome of
      each request and the readings of the timers.
    - An HTML text is represented by its parse tree.
    - The libraries the package calls ([re], [collections.Counter],
      [requests], [bs4], [cachetools.TTLCache], [aiohttp]) are written out
      as far as the package uses them. *)

From Stdlib Require Import ZArith QArith Qround Lia Lqa List String Ascii.
From stdpp Require Import gmap strings list fin_maps sorting.
Import ListNotations.

Local Open Scope Z_scope.
Local Open Scope list_scope.

(* ===================================================================== *)
(** ** Python strings *)
(* ===================================================================== *)

Definition pychar := N.
Definition pystr := list N.

(** [py "abc"] is the Python string of an ASCII literal. *)
Definition py (s : string) : pystr :=
  map N_of_ascii (list_ascii_of_string s).

Definition in_range (lo hi c : N) : bool := ((lo <=? c) && (c <=? hi))%N.

(** [[A-Z]], [[a-z]] and [[A-Za-z]]. *)
Definition is_upper (c : pychar) : bool := in_range 65 90 c.
Definition is_lower (c : pychar) : bool := in_range 97 122 c.
Definition is_alpha (c : pychar) : bool := is_upper c || is_lower c.

(** [str.lower].  Three kinds of code points have a lower-case form with an
    ASCII letter in it: [A-Z], the dotted capital I (U+0130, which becomes
    [i] followed by the combining dot U+0307) and the Kelvin sign (U+212A,
    which becomes [k]).  Every other code point that [str.lower] changes is
    outside ASCII and becomes one code point outside ASCII; it is left as it
    is here, since the package reads the result through ASCII classes
    only. *)
Definition lower_char (c : pychar) : pystr :=
  if is_upper c then [(c + 32)%N]
  else if (c =? 304)%N then [105%N; 775%N]
  else if (c =? 8490)%N then [107%N]
  else [c].
Definition lower (s : pystr) : pystr := flat_map lower_char s.

(** [str.isspace] for one character (Python's [Py_UNICODE_ISSPACE]). *)
Definition is_space (c : pychar) : bool :=
  in_range 9 13 c || in_range 28 32 c || (c =? 133)%N || (c =? 160)%N
  || (c =? 5760)%N || in_range 8192 8202 c || (c =? 8232)%N || (c =? 8233)%N
  || (c =? 8239)%N || (c =? 8287)%N || (c =? 12288)%N.

(** [s.lstrip()], [s.rstrip()] and [s.strip()]. *)
Fixpoint lstrip (s : pystr) : pystr :=
  match s with
  | [] => []
  | c :: s' => if is_space c then lstrip s' else s
  end.
Definition rstrip (s : pystr) : pystr := rev (lstrip (rev s)).
Definition strip (s : pystr) : pystr := rstrip (lstrip s).

(** [s.split()]: the maximal runs of characters that are not white space.
    [cur] is the run being read, newest character first. *)
Definition flush (cur : pystr) : list pystr :=
  match cur with [] => [] | _ => [rev cur] end.

Fixpoint split_ws_from (s : pystr) (cur : pystr) : list pystr :=
  match s with
  | [] => flush cur
  | c :: s' =>
      if is_space c then flush cur ++ split_ws_from s' []
      else split_ws_from s' (c :: cur)
  end.
Definition split_ws (s : pystr) : list pystr := split_ws_from s [].

(** [s.split(sep)] for a one-character separator and [re.split] on a
    character class: one segment more than there are separators, empty
    segments kept. *)
Fixpoint split_on_from (sep : pychar -> bool) (s : pystr) (cur : pystr)
  : list pystr :=
  match s with
  | [] => [rev cur]
  | c :: s' =>
      if sep c then rev cur :: split_on_from sep s' []
      else split_on_from sep s' (c :: cur)
  end.
Definition split_on (sep : pychar -> bool) (s : pystr) : list pystr :=
  split_on_from sep s [].

(* ===================================================================== *)
(** ** keyword_utils.py *)
(* ===================================================================== *)

Definition STOP_WORDS : list pystr :=
  map py
    ["a"; "an"; "and"; "are"; "as"; "at"; "be"; "but"; "by"; "for";
     "from"; "if"; "in"; "into"; "is"; "it"; "no"; "not"; "of"; "on";
     "or"; "such"; "that"; "the"; "their"; "then"; "there"; "these";
     "they"; "this"; "to"; "was"; "will"; "with"; "we"; "you"; "your"]%string.

(** The class [[A-Za-z'-]] of [WORD_RE]. *)
Definition is_word_char (c : pychar) : bool :=
  is_alpha c || (c =? 39)%N || (c =? 45)%N.

(** A candidate match of [WORD_RE] is kept when the letter that opened it is
    followed by at least one more character of the class ([{1,}]). *)
Definition word_re_emit (cur : pystr) : list pystr :=
  match cur with
  | _ :: _ :: _ => [rev cur]
  | _ => []
  end.

(** [WORD_RE.finditer(text)]: leftmost, greedy, non-overlapping matches of
    [[A-Za-z][A-Za-z'-]{1,}].  [cur] is the match being read (newest first),
    empty when the scan is between matches.  A character that ends a match
    is outside the class, so it cannot open the next one. *)
Fixpoint word_re_from (text : pystr) (cur : pystr) : list pystr :=
  match text with
  | [] => word_re_emit cur
  | c :: text' =>
      match cur with
      | [] => if is_alpha c then word_re_from text' [c]
              else word_re_from text' []
      | _ :: _ =>
          if is_word_char c then word_re_from text' (c :: cur)
          else word_re_emit cur ++ word_re_from text' []
      end
  end.
Definition WORD_RE_finditer (text : pystr) : list pystr :=
  word_re_from text [].

(** [collections.Counter(words)]: a dict, so the keys stay in the order of
    their first insertion. *)
Fixpoint counter_add (w : pystr) (c : list (pystr * nat))
  : list (pystr * nat) :=
  match c with
  | [] => [(w, 1%nat)]
  | (k, n) :: c' =>
      if decide (k = w) then (k, S n) :: c' else (k, n) :: counter_add w c'
  end.
Definition Counter (ws : list pystr) : list (pystr * nat) :=
  fold_left (fun c w => counter_add w c) ws [].

(** [sorted(items, key=itemgetter(1), reverse=True)]: Python's sort is
    stable, also with [reverse=True]; an item goes behind every item whose
    count is at least its own. *)
Fixpoint insert_desc (x : pystr * nat) (l : list (pystr * nat))
  : list (pystr * nat) :=
  match l with
  | [] => [x]
  | y :: l' =>
      if (snd y <? snd x)%nat then x :: l else y :: insert_desc x l'
  end.
Definition sorted_desc (l : list (pystr * nat)) : list (pystr * nat) :=
  fold_left (fun acc x => insert_desc x acc) l [].

(** [Counter.most_common(n)] is [heapq.nlargest(n, items, key=count)]: the
    first [n] items of the stable descending sort, and no item when
    [n <= 0]. *)
Definition most_common (n : Z) (c : list (pystr * nat))
  : list (pystr * nat) :=
  firstn (Z.to_nat n) (sorted_desc c).

Record KeywordRecord := { keyword : pystr; count : nat }.

Definition keep_word (w : pystr) : bool :=
  bool_decide (w ∉ STOP_WORDS) && (2 <? length w)%nat.

Definition extract_keywords (text : pystr) (top_n : Z) : list KeywordRecord :=
  let words := map lower (WORD_RE_finditer text) in
  let filtered := List.filter keep_word words in
  let counts := Counter filtered in
  map (fun kc => {| keyword := fst kc; count := snd kc |})
      (most_common top_n counts).

Definition default_top_n : Z := 15.

(* ===================================================================== *)
(** ** Exceptions *)
(* ===================================================================== *)

(** An exception (an instance of [Exception], which is what the handlers of
    the package catch) is known by its class and by [str(exc)]. *)
Record exn := { exn_class : string; exn_str : pystr }.

Inductive outcome (A : Type) : Type :=
| Returned (a : A)
| Raised (e : exn).
Arguments Returned {A} a.
Arguments Raised {A} e.

#[global] Instance outcome_ret : MRet outcome := fun A a => Returned a.
#[global] Instance outcome_bind : MBind outcome := fun A B k m =>
  match m with
  | Returned a => k a
  | Raised e => Raised e
  end.

(** [repr(s)] of a string, which is also [str(KeyError(s))].  The quote is
    the double one when the string holds a single quote and no double one,
    else the single one; the quote and the backslash are escaped, tab, line
    feed and carriage return are written [\t], [\n] and [\r], and the other
    control characters of ASCII as [\xNN].  Above ASCII the printable code
    points are copied, and so are all code points here: the escapes of the
    unprintable ones need the Unicode database. *)
Definition hex_digit (n : N) : pychar :=
  if (n <? 10)%N then (48 + n)%N else (87 + n)%N.

Definition repr_quote (s : pystr) : pychar :=
  if existsb (N.eqb 39) s && negb (existsb (N.eqb 34) s) then 34%N else 39%N.

Definition repr_char (quote : pychar) (c : pychar) : pystr :=
  if (c =? quote)%N || (c =? 92)%N then [92%N; c]
  else if (c =? 9)%N then [92%N; 116%N]
  else if (c =? 10)%N then [92%N; 110%N]
  else if (c =? 13)%N then [92%N; 114%N]
  else if (c <? 32)%N || (c =? 127)%N
    then [92%N; 120%N; hex_digit (c / 16); hex_digit (c mod 16)]
  else [c].

Definition py_repr (s : pystr) : pystr :=
  let quote := repr_quote s in
  [quote] ++ flat_map (repr_char quote) s ++ [quote].

(** [try: m except Exception: h]. *)
Definition try_except {A : Type} (m : outcome A) (h : exn -> outcome A)
  : outcome A :=
  match m with
  | Returned a => Returned a
  | Raised e => h e
  end.

(* ===================================================================== *)
(** ** Python numbers *)
(* ===================================================================== *)

(** [a / b] on two [int]s. *)
Definition truediv (a b : Z) : outcome Q :=
  if (b =? 0)%Z
  then Raised {| exn_class := "ZeroDivisionError";
                 exn_str := py "division by zero" |}
  else Returned (inject_Z a / inject_Z b)%Q.

(** Rounding to the nearest integer, ties to the even one. *)
Definition round_half_even (q : Q) : Z :=
  let f := Qfloor q in
  match (q - inject_Z f ?= 1 # 2)%Q with
  | Lt => f
  | Gt => f + 1
  | Eq => if Z.even f then f else f + 1
  end.

(** [round(x, ndigits)] on the rational a float stands for: the nearest
    decimal with [ndigits] digits, ties to the even one.  The float that
    Python returns is the one nearest to that decimal. *)
Definition py_round (x : Q) (ndigits : nat) : Q :=
  let scale := inject_Z (10 ^ Z.of_nat ndigits) in
  (inject_Z (round_half_even (x * scale)) / scale)%Q.

(* ===================================================================== *)
(** ** readability_utils.py *)
(* ===================================================================== *)

Definition vowels : pystr := py "aeiouy".

(** One step of the loop of [_syllable_count]; the state is
    [(num_vowels, prev_char_was_vowel)]. *)
Definition syllable_step (st : Z * bool) (char : pychar) : Z * bool :=
  let '(num_vowels, prev_char_was_vowel) := st in
  let is_vowel := bool_decide (char ∈ vowels) in
  (if is_vowel && negb prev_char_was_vowel then num_vowels + 1
   else num_vowels,
   is_vowel).

Definition endswith (s : pystr) (c : pychar) : bool :=
  match rev s with
  | c' :: _ => (c' =? c)%N
  | [] => false
  end.

Definition _syllable_count (word : pystr) : Z :=
  let word := lower word in
  let word := List.filter is_lower word in
  let num_vowels := fst (fold_left syllable_step word (0, false)) in
  let num_vowels :=
    if endswith word 101%N && (1 <? num_vowels)%Z then num_vowels - 1
    else num_vowels in
  Z.max 1 num_vowels.

(** [re.findall(r'[A-Za-z]+', text)]: the maximal runs of letters. *)
Fixpoint letters_from (text : pystr) (cur : pystr) : list pystr :=
  match text with
  | [] => flush cur
  | c :: text' =>
      if is_alpha c then letters_from text' (c :: cur)
      else flush cur ++ letters_from text' []
  end.
Definition findall_letters (text : pystr) : list pystr :=
  letters_from text [].

(** The class [[.!?]]. *)
Definition is_sentence_end (c : pychar) : bool :=
  (c =? 46)%N || (c =? 33)%N || (c =? 63)%N.

Definition sum_Z (l : list Z) : Z := fold_left Z.add l 0.

(** [bool(s)] for a string. *)
Definition truthy (s : pystr) : bool :=
  match s with [] => false | _ => true end.

Definition flesch_words_count (text : pystr) : Z :=
  let words := findall_letters text in
  match words with
  | [] => 1
  | _ => Z.of_nat (length words)
  end.

Definition flesch_sentences_count (text : pystr) : Z :=
  let sentences := split_on is_sentence_end text in
  let n :=
    Z.of_nat (length (List.filter (fun s => truthy (strip s)) sentences)) in
  if (n =? 0)%Z then 1 else n.

Definition flesch_syllables_count (text : pystr) : Z :=
  sum_Z (map _syllable_count (findall_letters text)).

Definition _flesch_reading_ease_manual (text : pystr) : outcome Q :=
  let words_count := flesch_words_count text in
  let sentences_count := flesch_sentences_count text in
  let syllables_count := flesch_syllables_count text in
  words_per_sentence ← truediv words_count sentences_count;
  syllables_per_word ← truediv syllables_count words_count;
  mret ((206835 # 1000) - (1015 # 1000) * words_per_sentence
            - (846 # 10) * syllables_per_word)%Q.

Record ReadabilityResult := { score : Q; level : pystr }.

Definition qge (x : Q) (n : Z) : bool := Qle_bool (inject_Z n) x.

Definition en_dash : pystr := [8211%N].

(** The interpretation of a score ("common ranges"). *)
Definition interpret (score : Q) : pystr :=
  if qge score 90 then py "Very easy (5th grade)"
  else if qge score 80 then py "Easy (6th grade)"
  else if qge score 70 then py "Fairly easy"
  else if qge score 60 then py "Standard (8th" ++ en_dash ++ py "9th grade)"
  else if qge score 50
    then py "Fairly difficult (10th" ++ en_dash ++ py "12th grade)"
  else if qge score 30 then py "Difficult (college)"
  else py "Very confusing".

(** [textstat] is the optional import: [None] when [_USE_TEXTSTAT] is
    false, else its [flesch_reading_ease]. *)
Definition textstat_t := option (pystr -> outcome Q).

Definition readability_score (textstat : textstat_t) (text : pystr)
  : outcome Q :=
  match textstat with
  | Some flesch_reading_ease =>
      try_except (flesch_reading_ease text)
                 (fun _ => _flesch_reading_ease_manual text)
  | None => _flesch_reading_ease_manual text
  end.

Definition compute_readability (textstat : textstat_t) (text : pystr)
  : outcome ReadabilityResult :=
  score ← readability_score textstat text;
  let level := interpret score in
  mret {| score := py_round score 2; level := level |}.

(* ===================================================================== *)
(** ** performance_utils.py *)
(* ===================================================================== *)

Inductive perf_value :=
| PInt (z : Z)
| PFloat (q : Q)
| PStr (s : pystr).

(** What the body of the [try] block meets.  [ProbeRaises]: the session, the
    request or the read of the body raises, before [result] is assigned.
    [ProbeReads]: the body is read; [close] is the exception, if any, raised
    while the two [async with] blocks are left, after [result] was
    assigned. *)
Inductive probe :=
| ProbeRaises (e : exn)
| ProbeReads (status : Z) (content_length : nat) (end_time : Q)
             (close : option exn).

(** The network and clock seen by the prober: the first reading of
    [time.perf_counter], and the behaviour of [session.get(url, ssl=...)];
    the flag tells whether an SSL context was passed. *)
Record ProbeWorld := {
  perf_start : Q;
  session_get : pystr -> bool -> probe
}.

Fixpoint startswith (s prefix : pystr) : bool :=
  match prefix, s with
  | [], _ => true
  | p :: prefix', c :: s' => (c =? p)%N && startswith s' prefix'
  | _ :: _, [] => false
  end.

Definition probe_try (start_time : Q) (p : probe)
  : outcome (gmap string perf_value) :=
  match p with
  | ProbeRaises e => Raised e
  | ProbeReads status content_length end_time close =>
      let response_time := (end_time - start_time)%Q in
      let page_size_kb :=
        (inject_Z (Z.of_nat content_length) / inject_Z 1024)%Q in
      let result : gmap string perf_value :=
        <["page_size_kb" := PFloat (py_round page_size_kb 2)]>
        (<["response_time_seconds" := PFloat (py_round response_time 3)]>
        (<["status_code" := PInt status]> ∅)) in
      match close with
      | None => Returned result
      | Some e => Raised e
      end
  end.

Definition analyze_performance (w : ProbeWorld) (url : pystr)
  : outcome (gmap string perf_value) :=
  let ssl_context := startswith url (py "https") in
  let start_time := perf_start w in
  try_except
    (probe_try start_time (session_get w url ssl_context))
    (fun exc =>
       mret (<["error" := PStr (exn_str exc)]>
             (<["status_code" := PInt (-1)]> ∅))).

(* ===================================================================== *)
(** ** HTML documents (BeautifulSoup with html.parser) *)
(* ===================================================================== *)

(** A document is represented by the tree the parser builds from its text:
    [Text] is a string that [get_text] yields, [Hidden] one it skips (a
    comment, a doctype), [Tag] an element with its attributes as written.
    Serialising a tree and parsing the text again gives the tree back. *)
#[warnings="-register-all"]
Inductive node :=
| Text (s : pystr)
| Hidden (s : pystr)
| Tag (name : pystr) (attrs : list (pystr * pystr)) (children : list node).

Definition soup := list node.

(** The elements below a node, itself included, in document order. *)
Fixpoint tags_of (n : node) : list node :=
  match n with
  | Tag _ _ children => n :: flat_map tags_of children
  | _ => []
  end.
Definition descendants (doc : soup) : list node := flat_map tags_of doc.

Definition tag_name (n : node) : pystr :=
  match n with Tag name _ _ => name | _ => [] end.
Definition tag_attrs (n : node) : list (pystr * pystr) :=
  match n with Tag _ attrs _ => attrs | _ => [] end.

(** [tag.get(key)] *)
Fixpoint attr_get (attrs : list (pystr * pystr)) (key : pystr)
  : option pystr :=
  match attrs with
  | [] => None
  | (k, v) :: attrs' => if decide (k = key) then Some v else attr_get attrs' key
  end.
Definition tag_get (n : node) (key : pystr) : option pystr :=
  attr_get (tag_attrs n) key.

(** [key in tag.attrs], also the filter [key=True]. *)
Definition has_attr (n : node) (key : pystr) : bool :=
  match tag_get n key with Some _ => true | None => false end.

(** The filter [key=value] on an attribute with one value. *)
Definition attr_is (n : node) (key value : pystr) : bool :=
  bool_decide (tag_get n key = Some value).

(** The filter [key=value] on an attribute the parser keeps as a list of
    white-space separated values ([class], and [rel] on [a] and [link]):
    one of the values is [value]. *)
Definition attr_has_value (n : node) (key value : pystr) : bool :=
  match tag_get n key with
  | Some v => bool_decide (value ∈ split_ws v)
  | None => false
  end.

Definition named (names : list pystr) (n : node) : bool :=
  bool_decide (tag_name n ∈ names).

(** [soup.find_all(...)] and [soup.find(...)] with the filter [p]. *)
Definition find_all (doc : soup) (p : node -> bool) : list node :=
  List.filter p (descendants doc).
Definition find (doc : soup) (p : node -> bool) : option node :=
  head (find_all doc p).

(** The strings [get_text] visits below a node. *)
Fixpoint strings_of (n : node) : list pystr :=
  match n with
  | Text s => [s]
  | Hidden _ => []
  | Tag _ _ children => flat_map strings_of children
  end.

Fixpoint join (sep : pystr) (l : list pystr) : pystr :=
  match l with
  | [] => []
  | [s] => s
  | s :: l' => s ++ sep ++ join sep l'
  end.

(** [tag.get_text()] *)
Definition get_text (n : node) : pystr := concat (strings_of n).

(** [tag.get_text(separator=sep, strip=True)] *)
Definition get_text_strip (sep : pystr) (strings : list pystr) : pystr :=
  join sep (List.filter truthy (map strip strings)).

(** [tag.string] *)
Fixpoint tag_string (n : node) : option pystr :=
  match n with
  | Text s => Some s
  | Hidden s => Some s
  | Tag _ _ [child] => tag_string child
  | Tag _ _ _ => None
  end.

(** The tree after [tag.decompose()] on every element with one of the
    [names]. *)
Fixpoint decompose (names : list pystr) (n : node) : list node :=
  match n with
  | Tag name attrs children =>
      if bool_decide (name ∈ names) then []
      else [Tag name attrs (flat_map (decompose names) children)]
  | _ => [n]
  end.

(* ===================================================================== *)
(** ** ai_search_optimizer.py *)
(* ===================================================================== *)

(** [suggestions.setdefault(key, []).append(msg)] *)
Definition setdefault_append (key : string) (msg : pystr)
    (suggestions : gmap string (list pystr)) : gmap string (list pystr) :=
  <[key := default [] (suggestions !! key) ++ [msg]]> suggestions.

Definition msg_h1 : pystr :=
  py "Use exactly one <h1> heading per page to clearly define the topic.".
Definition msg_h2 : pystr :=
  py "Include multiple <h2> subheadings to structure your content into sections.".
Definition msg_lists : pystr :=
  py "Add bullet or numbered lists to break down complex information into digestible points.".
Definition msg_schema : pystr :=
  py "Implement schema.org structured data (e.g. Article or FAQ) to help search engines understand your page.".
Definition msg_trust : pystr :=
  py "Add author information and, if appropriate, credentials or citations to establish trust and expertise.".
Definition msg_tldr : pystr :=
  py "Consider adding a concise summary or TL;DR at the beginning of the article to answer common questions quickly.".
Definition msg_intro : pystr :=
  py "Add a short introductory paragraph that summarises the page's topic.".
Definition msg_tone : pystr :=
  py "Use shorter sentences and a conversational tone to improve readability and user engagement.".

(** [len(soup.find_all(name))] *)
Definition heading_count (doc : soup) (name : string) : Z :=
  Z.of_nat (length (find_all doc (named [py name]))).

Definition is_json_ld (n : node) : bool :=
  named [py "script"] n && attr_is n (py "type") (py "application/ld+json").
Definition is_author_meta (n : node) : bool :=
  named [py "meta"] n && attr_is n (py "name") (py "author").
Definition is_author_link (n : node) : bool :=
  named [py "a"] n && attr_has_value n (py "rel") (py "author").

Definition is_some {A : Type} (o : option A) : bool :=
  match o with Some _ => true | None => false end.

(** Step 1: heading structure. *)
Definition check_headings (doc : soup)
    (suggestions : gmap string (list pystr)) : gmap string (list pystr) :=
  let heading_suggestions : list pystr := [] in
  let heading_suggestions :=
    if negb (heading_count doc "h1" =? 1)%Z
    then heading_suggestions ++ [msg_h1] else heading_suggestions in
  let heading_suggestions :=
    if (heading_count doc "h2" <? 2)%Z
    then heading_suggestions ++ [msg_h2] else heading_suggestions in
  match heading_suggestions with
  | [] => suggestions
  | _ => <["headings" := heading_suggestions]> suggestions
  end.

(** Step 2: bulleted or numbered lists. *)
Definition check_lists (doc : soup)
    (suggestions : gmap string (list pystr)) : gmap string (list pystr) :=
  let lists_found := find_all doc (named [py "ul"; py "ol"]) in
  match lists_found with
  | [] => setdefault_append "lists" msg_lists suggestions
  | _ => suggestions
  end.

(** Step 3: schema markup. *)
Definition check_schema (doc : soup)
    (suggestions : gmap string (list pystr)) : gmap string (list pystr) :=
  let has_json_ld := is_some (find doc is_json_ld) in
  let has_microdata :=
    is_some (find doc (fun n => has_attr n (py "itemscope")))
    || is_some (find doc (fun n => has_attr n (py "itemtype"))) in
  if negb (has_json_ld || has_microdata)
  then setdefault_append "schema" msg_schema suggestions
  else suggestions.

(** Step 4: trust and author signals. *)
Definition check_trust (doc : soup)
    (suggestions : gmap string (list pystr)) : gmap string (list pystr) :=
  let author_meta := find doc is_author_meta in
  let author_link := find doc is_author_link in
  if negb (is_some author_meta || is_some author_link)
  then setdefault_append "trust" msg_trust suggestions
  else suggestions.

(** Step 5: a quick answer at the top. *)
Definition check_summary (doc : soup)
    (suggestions : gmap string (list pystr)) : gmap string (list pystr) :=
  let first_p := find doc (named [py "p"]) in
  match first_p with
  | Some first_p =>
      let first_words := split_ws (get_text first_p) in
      if (50 <? Z.of_nat (length first_words))%Z
      then setdefault_append "summary" msg_tldr suggestions
      else suggestions
  | None => setdefault_append "summary" msg_intro suggestions
  end.

Definition is_period (c : pychar) : bool := (c =? 46)%N.

(** The sentences of step 6 and the words they hold. *)
Definition tone_sentences (content : pystr) : list pystr :=
  List.filter truthy (map strip (split_on is_period content)).
Definition tone_words (sentences : list pystr) : Z :=
  sum_Z (map (fun s => Z.of_nat (length (split_ws s))) sentences).

(** Step 6: conversational tone.  The quotient is the exact one. *)
Definition check_tone (content : pystr)
    (suggestions : gmap string (list pystr)) : gmap string (list pystr) :=
  let sentences := tone_sentences content in
  match sentences with
  | [] => suggestions
  | _ =>
      let avg_len :=
        (inject_Z (tone_words sentences)
         / inject_Z (Z.of_nat (length sentences)))%Q in
      if negb (Qle_bool avg_len 25)
      then setdefault_append "tone" msg_tone suggestions
      else suggestions
  end.

Definition analyze_ai_search_factors (content : pystr) (html : soup)
  : gmap string (list pystr) :=
  let suggestions : gmap string (list pystr) := ∅ in
  let suggestions := check_headings html suggestions in
  let suggestions := check_lists html suggestions in
  let suggestions := check_schema html suggestions in
  let suggestions := check_trust html suggestions in
  let suggestions := check_summary html suggestions in
  let suggestions := check_tone content suggestions in
  suggestions.

(* ===================================================================== *)
(** ** content_analyzer.py: extraction *)
(* ===================================================================== *)

Record MetaTags := { title : option pystr; description : option pystr }.
Record LinkInfo := { link_text : pystr; link_href : pystr }.
Record ImageInfo := {
  img_src : pystr; img_alt : pystr; img_loading : option pystr }.
Record ScriptInfo := {
  script_src : pystr; script_async : bool; script_defer : bool }.

Record FetchResult := {
  content : pystr;
  full_content : pystr;
  meta_tags : MetaTags;
  headings : list (string * list pystr);
  links : list LinkInfo;
  images : list ImageInfo;
  scripts : list ScriptInfo;
  styles : list pystr;
  full_html : soup
}.

Definition boilerplate : list pystr :=
  map py ["script"; "style"; "nav"; "header"; "footer"; "aside"]%string.

Definition is_content_div (n : node) : bool :=
  named [py "div"] n && attr_has_value n (py "class") (py "content").

Definition extract_main_content (html_content : soup) : pystr :=
  let doc := flat_map (decompose boilerplate) html_content in
  let main :=
    match find doc (named [py "article"; py "main"]) with
    | Some m => Some m
    | None => find doc is_content_div
    end in
  match main with
  | Some main => get_text_strip (py " ") (strings_of main)
  | None => get_text_strip (py " ") (flat_map strings_of doc)
  end.

(** [tag[key]] *)
Definition tag_getitem (n : node) (key : pystr) : outcome pystr :=
  match tag_get n key with
  | Some v => Returned v
  | None => Raised {| exn_class := "KeyError"; exn_str := py_repr key |}
  end.

Definition is_description_meta (n : node) : bool :=
  named [py "meta"] n && attr_is n (py "name") (py "description").

Definition extract_meta_tags (doc : soup) : outcome MetaTags :=
  let title :=
    match find doc (named [py "title"]) with
    | Some t => tag_string t
    | None => None
    end in
  description ←
    match find doc is_description_meta with
    | Some m => v ← tag_getitem m (py "content"); mret (Some v)
    | None => mret None
    end;
  mret {| title := title; description := description |}.

Definition heading_names : list string :=
  ["h1"; "h2"; "h3"; "h4"; "h5"; "h6"]%string.

Definition extract_headings (doc : soup) : list (string * list pystr) :=
  map (fun h =>
         (h, map (fun t => get_text_strip [] (strings_of t))
                 (find_all doc (named [py h]))))
      heading_names.

Definition extract_links (doc : soup) : list LinkInfo :=
  map (fun a => {| link_text := get_text_strip [] (strings_of a);
                   link_href := default [] (tag_get a (py "href")) |})
      (find_all doc (fun n => named [py "a"] n && has_attr n (py "href"))).

Definition extract_images (doc : soup) : list ImageInfo :=
  map (fun img => {| img_src := default [] (tag_get img (py "src"));
                     img_alt := default [] (tag_get img (py "alt"));
                     img_loading := tag_get img (py "loading") |})
      (find_all doc (named [py "img"])).

Definition extract_scripts (doc : soup) : list ScriptInfo :=
  map (fun script =>
         {| script_src := default [] (tag_get script (py "src"));
            script_async := has_attr script (py "async");
            script_defer := has_attr script (py "defer") |})
      (find_all doc (fun n => named [py "script"] n && has_attr n (py "src"))).

Definition extract_styles (doc : soup) : list pystr :=
  map (fun link => default [] (tag_get link (py "href")))
      (find_all doc (fun n => named [py "link"] n
                              && attr_has_value n (py "rel") (py "stylesheet"))).

(** The part of [fetch_content] between [response.text] and the write to
    the cache. *)
Definition extract (html_content : soup) : outcome FetchResult :=
  let doc := html_content in
  let main_content := extract_main_content html_content in
  meta_tags ← extract_meta_tags doc;
  mret {| content := main_content;
          full_content := concat (flat_map strings_of doc);
          meta_tags := meta_tags;
          headings := extract_headings doc;
          links := extract_links doc;
          images := extract_images doc;
          scripts := extract_scripts doc;
          styles := extract_styles doc;
          full_html := doc |}.

(* ===================================================================== *)
(** ** content_analyzer.py: the cache (cachetools.TTLCache) *)
(* ===================================================================== *)

(** An entry of the cache with the time at which it expires.  The list is
    in the order of the cache's key index: least recently used first. *)
Record CacheLink := {
  link_key : pystr;
  link_value : FetchResult;
  link_expires : Q
}.
Definition TTLCache := list CacheLink.

Definition maxsize : nat := 100.
Definition ttl : Q := 3600.

Definition Qltb (x y : Q) : bool := negb (Qle_bool y x).

Definition is_key (key : pystr) (l : CacheLink) : bool :=
  bool_decide (link_key l = key).

Definition getlink (c : TTLCache) (key : pystr) : option CacheLink :=
  List.find (is_key key) c.

Definition unlink (c : TTLCache) (key : pystr) : TTLCache :=
  List.filter (fun l => negb (is_key key l)) c.

(** [key in cache], with the reading [now] of the cache's timer. *)
Definition cache_contains (c : TTLCache) (key : pystr) (now : Q) : bool :=
  match getlink c key with
  | Some link => Qltb now (link_expires link)
  | None => false
  end.

Definition key_error (key : pystr) : exn :=
  {| exn_class := "KeyError"; exn_str := py_repr key |}.

(** [cache[key]]: the link moves to the end of the key index; an expired or
    missing key raises [KeyError]. *)
Definition cache_getitem (c : TTLCache) (key : pystr) (now : Q)
  : outcome FetchResult * TTLCache :=
  match getlink c key with
  | None => (Raised (key_error key), c)
  | Some link =>
      let c' := unlink c key ++ [link] in
      if Qltb now (link_expires link)
      then (Returned (link_value link), c')
      else (Raised (key_error key), c')
  end.

(** [cache.expire(time)] *)
Definition expire (c : TTLCache) (time : Q) : TTLCache :=
  List.filter (fun l => Qltb time (link_expires l)) c.

(** [cache[key] = value]: expired entries go, then the least recently used
    one if the cache is full and the key is new, and the entry is written at
    the end with a fresh expiry time. *)
Definition cache_setitem (c : TTLCache) (key : pystr) (value : FetchResult)
    (time : Q) : TTLCache :=
  let c := expire c time in
  let c :=
    match getlink c key with
    | Some _ => c
    | None => if (maxsize <=? length c)%nat then tl c else c
    end in
  unlink c key
  ++ [{| link_key := key; link_value := value;
         link_expires := (time + ttl)%Q |}].

(* ===================================================================== *)
(** ** content_analyzer.py: fetch_content *)
(* ===================================================================== *)

(** [requests.get(url, headers=..., timeout=30)] *)
Inductive http_outcome :=
| HttpRaises (e : exn)
| HttpResponse (status_code : Z) (text : soup).

(** The network and the readings of the cache's timer during one call. *)
Record FetchWorld := {
  t_contains : Q;
  t_getitem : Q;
  requests_get : pystr -> http_outcome;
  t_setitem : Q
}.

(** [response.raise_for_status()] *)
Definition raise_for_status (status_code : Z) : outcome unit :=
  if (400 <=? status_code)%Z && (status_code <? 600)%Z
  then Raised {| exn_class := "HTTPError";
                 exn_str := py "HTTP Error" |}  (* only logged *)
  else Returned tt.

(** The result of one call: what it returns or raises, the cache it leaves,
    and the URLs it requested from the network. *)
Record FetchRun := {
  fetch_value : outcome (option FetchResult);
  fetch_cache : TTLCache;
  fetch_requests : list pystr
}.

(** The body of the [try] block, up to the value to be cached. *)
Definition fetch_try (w : FetchWorld) (url : pystr) : outcome FetchResult :=
  match requests_get w url with
  | HttpRaises e => Raised e
  | HttpResponse status_code text =>
      _ ← raise_for_status status_code;
      extract text
  end.

Definition fetch_content (w : FetchWorld) (content_cache : TTLCache)
    (url : pystr) : FetchRun :=
  if cache_contains content_cache url (t_contains w) then
    let '(value, cache') := cache_getitem content_cache url (t_getitem w) in
    {| fetch_value := r ← value; mret (Some r);
       fetch_cache := cache';
       fetch_requests := [] |}
  else
    match fetch_try w url with
    | Returned result =>
        {| fetch_value := Returned (Some result);
           fetch_cache := cache_setitem content_cache url result (t_setitem w);
           fetch_requests := [url] |}
    | Raised exc =>
        {| fetch_value := Returned None;
           fetch_cache := content_cache;
           fetch_requests := [url] |}
    end.

(* ===================================================================== *)
(** ** seo_analyzer.py *)
(* ===================================================================== *)

Inductive report_value :=
| RStr (s : pystr)
| RKeywords (l : list KeywordRecord)
| RReadability (r : ReadabilityResult)
| RPerformance (p : gmap string perf_value)
| RSuggestions (s : gmap string (list pystr)).

Inductive stage :=
| Fetch | Keywords | Readability | Performance | AiSearch.

(** The five functions [analyze_url] imports.  Each may return or raise. *)
Record Stages := {
  st_fetch_content : pystr -> outcome (option FetchResult);
  st_extract_keywords : pystr -> outcome (list KeywordRecord);
  st_compute_readability : pystr -> outcome ReadabilityResult;
  st_analyze_performance : pystr -> outcome (gmap string perf_value);
  st_analyze_ai_search_factors :
    pystr -> soup -> outcome (gmap string (list pystr))
}.

(** The state of a run: the [report] dict, which the body mutates and the
    handler still sees, and the stages called so far, oldest first. *)
Record Run := {
  run_report : gmap string report_value;
  run_calls : list stage
}.

Definition M (A : Type) : Type := Run -> Run * outcome A.

#[global] Instance M_ret : MRet M := fun A a r => (r, Returned a).
#[global] Instance M_bind : MBind M := fun A B k m r =>
  match m r with
  | (r', Returned a) => k a r'
  | (r', Raised e) => (r', Raised e)
  end.

(** Calling a stage. *)
Definition call {A : Type} (s : stage) (result : outcome A) : M A :=
  fun r => ({| run_report := run_report r; run_calls := run_calls r ++ [s] |},
            result).

(** [report[key] = value] *)
Definition assign (key : string) (value : report_value) : M unit :=
  fun r => ({| run_report := <[key := value]> (run_report r);
               run_calls := run_calls r |},
            Returned tt).

Definition msg_fetch_failed : pystr :=
  py "Failed to fetch content from the URL.".
Definition msg_unexpected : pystr := py "Unexpected error: ".

(** The body of the [try] block.  The early [return report] ends it, and
    nothing follows the block but [return report]. *)
Definition analyze_try (st : Stages) (url : pystr) : M unit :=
  content_data ← call Fetch (st_fetch_content st url);
  match content_data with
  | None => assign "error" (RStr msg_fetch_failed)
  | Some content_data =>
      let content := content content_data in
      let html := full_html content_data in
      kw ← call Keywords (st_extract_keywords st content);
      _ ← assign "keyword_analysis" (RKeywords kw);
      rd ← call Readability (st_compute_readability st content);
      _ ← assign "readability" (RReadability rd);
      pf ← call Performance (st_analyze_performance st url);
      _ ← assign "performance" (RPerformance pf);
      ai ← call AiSearch (st_analyze_ai_search_factors st content html);
      assign "ai_search_optimization" (RSuggestions ai)
  end.

Definition analyze_url (st : Stages) (url : pystr) : Run :=
  let report : gmap string report_value := {[ "url" := RStr url ]} in
  match analyze_try st url {| run_report := report; run_calls := [] |} with
  | (r, Returned _) => r
  | (r, Raised exc) =>
      {| run_report :=
           <["error" := RStr (msg_unexpected ++ exn_str exc)]> (run_report r);
         run_calls := run_calls r |}
  end.

(** The stages as the package defines them, in a given world. *)
Record World := {
  w_fetch : FetchWorld;
  w_cache : TTLCache;
  w_textstat : textstat_t;
  w_probe : ProbeWorld
}.

Definition package_stages (w : World) : Stages := {|
  st_fetch_content := fun url =>
    fetch_value (fetch_content (w_fetch w) (w_cache w) url);
  st_extract_keywords := fun text =>
    Returned (extract_keywords text default_top_n);
  st_compute_readability := compute_readability (w_textstat w);
  st_analyze_performance := analyze_performance (w_probe w);
  st_analyze_ai_search_factors := fun content html =>
    Returned (analyze_ai_search_factors content html)
|}.

(* ===================================================================== *)
(** ** app.py *)
(* ===================================================================== *)

(** A value of the Flask session.  A [datetime] is a number of microseconds;
    [SDatetime t] is the string [t.isoformat()], which [fromisoformat] reads
    back as [t], and [SText s] is a string that is not in ISO format. *)
Inductive session_value :=
| SBool (b : bool)
| SDatetime (t : Z)
| SText (s : pystr).

(** [bool(v)] *)
Definition session_truthy (v : session_value) : bool :=
  match v with
  | SBool b => b
  | SDatetime _ => true
  | SText s => truthy s
  end.

(** [datetime.fromisoformat(v)] *)
Definition fromisoformat (v : session_value) : outcome Z :=
  match v with
  | SDatetime t => Returned t
  | SText s => Raised {| exn_class := "ValueError";
                         exn_str := py "Invalid isoformat string" |}
  | SBool _ => Raised {| exn_class := "TypeError";
                         exn_str := py "fromisoformat: argument must be str" |}
  end.

(** [timedelta(days=1)] *)
Definition one_day : Z := 86400 * 1000000.

Definition _trial_expired (session : gmap string session_value) (utcnow : Z)
  : bool :=
  match session !! "trial_start" with
  | None => false
  | Some trial_start_str =>
      if negb (session_truthy trial_start_str) then false
      else
        match fromisoformat trial_start_str with
        | Raised _ => false
        | Returned start_dt => (start_dt + one_day <? utcnow)%Z
        end
  end.

(** The [before_request] hook. *)
Definition start_trial_if_needed (session : gmap string session_value)
    (utcnow : Z) : gmap string session_value :=
  match session !! "trial_start" with
  | Some _ => session
  | None => <["trial_start" := SDatetime utcnow]> session
  end.

Inductive json_body :=
| JError (message : pystr)
| JReport (report : gmap string report_value).

(** What a view gives Flask: a response, or an exception that it lets
    through.  Flask answers an exception with the status of an
    [HTTPException], and with 500 for any other. *)
Inductive response :=
| Redirect (endpoint : string)
| Render (template : string)
| Json (status : Z) (body : json_body)
| Propagates (e : exn).

(** [not session.get(key)] *)
Definition session_not (session : gmap string session_value) (key : string)
  : bool :=
  match session !! key with
  | Some v => negb (session_truthy v)
  | None => true
  end.

Definition index (session : gmap string session_value) (utcnow : Z)
  : response :=
  if _trial_expired session utcnow && session_not session "subscribed"
  then Redirect "subscribe"
  else Render "index.html".

Definition subscribe : response := Render "subscribe.html".

Definition payment_success (session : gmap string session_value) (utcnow : Z)
  : gmap string session_value * response :=
  let session := <["subscribed" := SBool true]> session in
  let session := <["trial_start" := SDatetime utcnow]> session in
  (session, Redirect "index").

(** The body of a request to [/api/analyze], as the view reads it.
    [request.get_json()] raises when Flask refuses the body as JSON (a
    text that is not JSON and, in recent versions, no body or another
    content type); the exception is an [HTTPException] of Flask.  Otherwise
    it returns the value of the body:
    - a falsy one ([null], [false], [0], an empty string, list or object),
      in place of which the view takes [{}];
    - an object, of which the view reads the member [url]: [None] when the
      member is absent, [null] or another falsy value that is not a string,
      else the string it holds;
    - a truthy value that is not an object (a number, a string, a list),
      named by its Python type, which has no method [get].
    A member [url] that is not a string and not [null] is left out: the
    view hands it to [analyze_url], which is embedded for strings. *)
Inductive api_body :=
| GetJsonRaises (e : exn)
| BodyFalsy
| BodyObject (url_field : option pystr)
| BodyNoGet (type_name : pystr).

Definition no_get (type_name : pystr) : exn :=
  {| exn_class := "AttributeError";
     exn_str := py "'" ++ type_name ++ py "' object has no attribute 'get'" |}.

Definition no_url : response := Json 400 (JError (py "No URL provided")).

(** [api_analyze].  The first two lines are outside the [try] block, so
    what they raise leaves the view.  The handler of the [try] block
    answers 500 when the event loop or the serialisation raise, which the
    stages cannot cause since [analyze_url] catches what they raise.  The
    result is the response and the stages that were called. *)
Definition api_analyze (st : Stages) (body : api_body)
  : response * list stage :=
  match body with
  | GetJsonRaises e => (Propagates e, [])
  | BodyNoGet type_name => (Propagates (no_get type_name), [])
  | BodyFalsy => (no_url, [])
  | BodyObject None => (no_url, [])
  | BodyObject (Some url) =>
      if negb (truthy url) then (no_url, [])
      else
        let run := analyze_url st url in
        (Json 200 (JReport (run_report run)), run_calls run)
  end.

Inductive route :=
| Index
| Subscribe
| PaymentSuccess
| ApiAnalyze (body : api_body).

(** One request: the hook, then the view.  [t0] and [t1] are the readings
    of [datetime.utcnow()] in the hook and in the view. *)
Definition handle (st : Stages) (r : route)
    (session : gmap string session_value) (t0 t1 : Z)
  : gmap string session_value * response :=
  let session := start_trial_if_needed session t0 in
  match r with
  | Index => (session, index session t1)
  | Subscribe => (session, subscribe)
  | PaymentSuccess => payment_success session t1
  | ApiAnalyze body => (session, fst (api_analyze st body))
  end.

(** A sequence of requests of one visitor, with the responses. *)
Fixpoint serve (st : Stages) (requests : list (route * Z * Z))
    (session : gmap string session_value)
  : gmap string session_value * list response :=
  match requests with
  | [] => (session, [])
  | (r, t0, t1) :: requests' =>
      let '(session', resp) := handle st r session t0 t1 in
      let '(final, resps) := serve st requests' session' in
      (final, resp :: resps)
  end.

(* ===================================================================== *)
(** ** Vocabulary of the properties *)
(* ===================================================================== *)

(** The position of the first occurrence of [w] in [ws], and [length ws]
    when there is none. *)
Fixpoint first_index (w : pystr) (ws : list pystr) : nat :=
  match ws with
  | [] => 0
  | x :: ws' => if decide (x = w) then 0 else S (first_index w ws')
  end.

(** The tokens of a text, lower-cased, in the order of the text. *)
Definition tokens (text : pystr) : list pystr :=
  map lower (WORD_RE_finditer text).

(** The order of the items that [most_common] realises over the words
    [ws]: a larger count first, and among equal counts the word seen first
    in [ws]. *)
Definition before_in (ws : list pystr) (a b : pystr * nat) : Prop :=
  (snd b < snd a)%nat
  \/ (snd a = snd b /\ (first_index (fst a) ws < first_index (fst b) ws)%nat).

(** The keys of a counter, and the first occurrence of an item's word. *)
Definition keys (c : list (pystr * nat)) : list pystr := map fst c.
Definition item_index (ws : list pystr) (a : pystr * nat) : nat :=
  first_index (fst a) ws.

(** The same order on the records returned. *)
Definition ranked_before (ws : list pystr) (a b : KeywordRecord) : Prop :=
  before_in ws (keyword a, count a) (keyword b, count b).

Definition to_record (kc : pystr * nat) : KeywordRecord :=
  {| keyword := fst kc; count := snd kc |}.

(** The exception that ends a probe, if any. *)
Definition probe_failure (p : probe) : option exn :=
  match p with
  | ProbeRaises e => Some e
  | ProbeReads _ _ _ (Some e) => Some e
  | ProbeReads _ _ _ None => None
  end.

(** The two shapes of a [PerformanceResult]. *)
Definition perf_failure (error : pystr) : gmap string perf_value :=
  <["error" := PStr error]> (<["status_code" := PInt (-1)]> ∅).
Definition perf_success (status_code : Z) (response_time_seconds page_size_kb : Q)
  : gmap string perf_value :=
  <["page_size_kb" := PFloat page_size_kb]>
  (<["response_time_seconds" := PFloat response_time_seconds]>
  (<["status_code" := PInt status_code]> ∅)).

(** The rules of the suggestion heuristics, one per category. *)
Definition exists_tag (html : soup) (p : node -> bool) : bool :=
  existsb p (descendants html).
Definition count_tag (html : soup) (name : string) : nat :=
  length (List.filter (named [py name]) (descendants html)).
Definition first_paragraph (html : soup) : option node :=
  List.find (named [py "p"]) (descendants html).
Definition word_count (s : pystr) : nat := length (split_ws s).

Definition rule_headings (html : soup) : bool :=
  negb (count_tag html "h1" =? 1)%nat || (count_tag html "h2" <? 2)%nat.
Definition rule_lists (html : soup) : bool :=
  negb (exists_tag html (named [py "ul"]) || exists_tag html (named [py "ol"])).
Definition rule_schema (html : soup) : bool :=
  negb (exists_tag html is_json_ld)
  && negb (exists_tag html (fun n => has_attr n (py "itemscope")))
  && negb (exists_tag html (fun n => has_attr n (py "itemtype"))).
Definition rule_trust (html : soup) : bool :=
  negb (exists_tag html is_author_meta)
  && negb (exists_tag html is_author_link).
Definition rule_summary (html : soup) : bool :=
  match first_paragraph html with
  | Some p => (50 <? word_count (get_text p))%nat
  | None => true
  end.
(** The average sentence length is over 25: there are more than 25 words
    per sentence. *)
Definition rule_tone (content_text : pystr) : bool :=
  let sentences := tone_sentences content_text in
  (25 * Z.of_nat (length sentences) <? tone_words sentences)%Z.

Definition rule_fired (category : string) (content_text : pystr) (html : soup)
  : bool :=
  if (category =? "headings")%string then rule_headings html
  else if (category =? "lists")%string then rule_lists html
  else if (category =? "schema")%string then rule_schema html
  else if (category =? "trust")%string then rule_trust html
  else if (category =? "summary")%string then rule_summary html
  else if (category =? "tone")%string then rule_tone content_text
  else false.

(** A page with exactly one [h1], two [h2], a [ul], a JSON-LD script, an
    author meta tag, a first paragraph of at most 50 words and an average
    sentence length of at most 25. *)
Definition tidy_page (content_text : pystr) (html : soup) : bool :=
  (count_tag html "h1" =? 1)%nat
  && (count_tag html "h2" =? 2)%nat
  && exists_tag html (named [py "ul"])
  && exists_tag html is_json_ld
  && exists_tag html is_author_meta
  && match first_paragraph html with
     | Some p => (word_count (get_text p) <=? 50)%nat
     | None => false
     end
  && (tone_words (tone_sentences content_text)
      <=? 25 * Z.of_nat (length (tone_sentences content_text)))%Z.

(** Every key present holds a non-empty list, for a category whose rule
    fired. *)
Definition justified (content_text : pystr) (html : soup)
    (m : gmap string (list pystr)) : Prop :=
  forall category l,
    m !! category = Some l ->
    l <> [] /\ rule_fired category content_text html = true.

(** The extraction raises: the first description meta tag has no
    [content] attribute. *)
Definition extraction_raises (text : soup) : bool :=
  match find text is_description_meta with
  | Some m => negb (has_attr m (py "content"))
  | None => false
  end.

(** The three ways in which a fetch on a cache miss fails. *)
Definition fetch_fails (w : FetchWorld) (url : pystr) : bool :=
  match requests_get w url with
  | HttpRaises _ => true
  | HttpResponse status_code text =>
      ((400 <=? status_code)%Z && (status_code <? 600)%Z)
      || extraction_raises text
  end.

(** The claim's reading of a failure: a network failure or a status that is
    not 2xx. *)
Definition network_or_non_2xx (w : FetchWorld) (url : pystr) : bool :=
  match requests_get w url with
  | HttpRaises _ => true
  | HttpResponse status_code _ =>
      negb ((200 <=? status_code)%Z && (status_code <? 300)%Z)
  end.

(** The value of [error] after an exception in a stage. *)
Definition unexpected (exc : exn) : report_value :=
  RStr (msg_unexpected ++ exn_str exc).

(** The lower boundaries of the six upper bands of the interpretation. *)
Definition band_boundaries : list Z := [90; 80; 70; 60; 50; 30].

(** The cache after a sequence of calls, each in its own world. *)
Definition fetch_many (calls : list (FetchWorld * pystr)) (c : TTLCache)
  : TTLCache :=
  fold_left (fun c call => fetch_cache (fetch_content (fst call) c (snd call)))
            calls c.

(** The entry [link] is in the cache, it is the entry of its key, and at
    most [n] entries are behind it in the order of eviction. *)
Definition kept_with (link : CacheLink) (n : nat) (c : TTLCache) : Prop :=
  exists pre post,
    c = pre ++ link :: post
    /\ Forall (fun l => is_key (link_key link) l = false) pre
    /\ (length post <= n)%nat.

(** A call for another URL than [url] whose write, if any, is made before
    the time [expires]. *)
Definition other_call (url : pystr) (expires : Q) (call : FetchWorld * pystr)
  : Prop :=
  snd call <> url /\ (t_setitem (fst call) < expires)%Q.

(* ===================================================================== *)
(** ** Worlds and documents of the examples *)
(* ===================================================================== *)

(** A page that meets [tidy_page], with its main content. *)
Definition tidy_html : soup :=
  [Tag (py "html") []
     [Tag (py "head") []
        [Tag (py "meta") [(py "name", py "author"); (py "content", py "Ann")] [];
         Tag (py "script") [(py "type", py "application/ld+json")]
             [Hidden (py "{}")]];
      Tag (py "body") []
        [Tag (py "h1") [] [Text (py "Cats")];
         Tag (py "h2") [] [Text (py "Food")];
         Tag (py "p") [] [Text (py "Cats eat fish. Cats sleep.")];
         Tag (py "h2") [] [Text (py "Sleep")];
         Tag (py "ul") [] [Tag (py "li") [] [Text (py "fish")]]]]].
Definition tidy_content : pystr :=
  py "Cats Food Cats eat fish. Cats sleep. Sleep fish".

(** Worlds for the examples: the network answers every URL in the same
    way, and all readings of the timer are [now]. *)
Definition world_at (now : Q) (net : http_outcome) : FetchWorld := {|
  t_contains := now; t_getitem := now;
  requests_get := fun _ => net;
  t_setitem := now
|}.

Definition connection_error : exn :=
  {| exn_class := "ConnectionError"; exn_str := py "Name or service not known" |}.

(** A document whose description meta tag has no [content]. *)
Definition bare_description_html : soup :=
  [Tag (py "html") []
     [Tag (py "head") [] [Tag (py "meta") [(py "name", py "description")] []];
      Tag (py "body") [] [Tag (py "p") [] [Text (py "Hello.")]]]].

Definition example_url : pystr := py "https://example.com/".

(** A world in which the probe times out: [str(asyncio.TimeoutError())] is
    the empty string. *)
Definition timeout_world : ProbeWorld := {|
  perf_start := 0;
  session_get := fun _ _ =>
    ProbeRaises {| exn_class := "TimeoutError"; exn_str := [] |}
|}.

Definition recursion_error : exn :=
  {| exn_class := "RecursionError";
     exn_str := py "maximum recursion depth exceeded" |}.

Definition quiet_world (net : http_outcome) : World := {|
  w_fetch := world_at 0 net;
  w_cache := [];
  w_textstat := None;
  w_probe := {| perf_start := 0;
                session_get := fun _ _ => ProbeReads 200 2048 (1 # 2) None |}
|}.

(** The stages of the package, but the suggestion heuristics raise, as the
    HTML library does on a document nested too deeply. *)
Definition faulty_stages (w : World) : Stages := {|
  st_fetch_content := st_fetch_content (package_stages w);
  st_extract_keywords := st_extract_keywords (package_stages w);
  st_compute_readability := st_compute_readability (package_stages w);
  st_analyze_performance := st_analyze_performance (package_stages w);
  st_analyze_ai_search_factors := fun _ _ => Raised recursion_error
|}.

(** A text of 19 words in 18 sentences, with 26 syllables by the count of
    [_syllable_count] (5 for "University", 4 for "education"): its Flesch
    score is 89.9951..., just below 90. *)
Definition borderline_text : pystr :=
  py "Go. Go. Go. Go. Go. Go. Go. Go. Go. Go. Go. Go. Go. Go. Go. Go. Go. "
  ++ py "University education.".

Definition other_url : pystr := py "https://example.org/".

(** A hundred pages of another site, each fetched with success at time 1. *)
Definition page_url (i : nat) : pystr :=
  py "https://example.org/page/"
  ++ [N.of_nat (48 + i / 10); N.of_nat (48 + i mod 10)].
Definition hundred_pages : list (FetchWorld * pystr) :=
  map (fun i => (world_at 1 (HttpResponse 200 tidy_html), page_url i))
      (seq 0 100).


(* ===================================================================== *)
(** ** Further vocabulary *)
(* ===================================================================== *)

(** The number of occurrences of [w] in [ws]. *)
Definition occurrences (w : pystr) (ws : list pystr) : nat :=
  length (List.filter (fun x => bool_decide (x = w)) ws).

(** [counter[k]]: the count of [k], 0 for a key that is absent. *)
Definition counter_get (c : list (pystr * nat)) (k : pystr) : nat :=
  match List.find (fun kc => bool_decide (fst kc = k)) c with
  | Some kc => snd kc
  | None => 0%nat
  end.

(** The shape of a match of [WORD_RE], and of a keyword: a letter, then at
    least [n] characters that are letters, apostrophes or hyphens; for a
    keyword the letters are lower-case. *)
Definition token_shape (n : nat) (w : pystr) : bool :=
  match w with
  | c :: s => is_alpha c && forallb is_word_char s && (n <=? length s)%nat
  | [] => false
  end.
Definition is_keyword_char (c : pychar) : bool :=
  is_lower c || (c =? 39)%N || (c =? 45)%N.
Definition keyword_shape (w : pystr) : bool :=
  match w with
  | c :: s => is_lower c && forallb is_keyword_char s && (2 <=? length s)%nat
  | [] => false
  end.


(** The vowels of the lower-case form of a word. *)
Definition is_vowel (c : pychar) : bool := bool_decide (c ∈ vowels).
Definition vowel_count (word : pystr) : nat :=
  length (List.filter is_vowel (lower word)).


(** The messages of a category whose rule fired. *)
Definition rule_messages (category : string) (html : soup) : list pystr :=
  if (category =? "headings")%string then
    (if negb (count_tag html "h1" =? 1)%nat then [msg_h1] else [])
    ++ (if (count_tag html "h2" <? 2)%nat then [msg_h2] else [])
  else if (category =? "lists")%string then [msg_lists]
  else if (category =? "schema")%string then [msg_schema]
  else if (category =? "trust")%string then [msg_trust]
  else if (category =? "summary")%string then
    match first_paragraph html with
    | Some _ => [msg_tldr]
    | None => [msg_intro]
    end
  else if (category =? "tone")%string then [msg_tone]
  else [].




(** A string that does not start with white space, and one that neither
    starts nor ends with it. *)
Definition starts_clean (s : pystr) : Prop :=
  match s with
  | c :: _ => is_space c = false
  | [] => True
  end.
Definition tight (s : pystr) : Prop := starts_clean s /\ starts_clean (rev s).


(** The shape the cache keeps: one entry per key, no more than [maxsize]
    entries. *)
Definition cache_keys (c : TTLCache) : list pystr := map link_key c.
Definition cache_ok (c : TTLCache) : Prop :=
  NoDup (cache_keys c) /\ (length c <= maxsize)%nat.


(** The five stages, in the order of the calls. *)
Definition all_stages : list stage :=
  [Fetch; Keywords; Readability; Performance; AiSearch].

(** A cached result and a world in which its entry expires between the
    membership test and the read. *)
Definition example_result : FetchResult := {|
  content := py "Cats eat fish.";
  full_content := py "Cats eat fish.";
  meta_tags := {| title := None; description := None |};
  headings := [];
  links := []; images := []; scripts := []; styles := [];
  full_html := tidy_html
|}.

Definition quoted_url : pystr := py "https://example.com/o'neill".

Definition race_world : World := {|
  w_fetch := {| t_contains := 3599; t_getitem := 3600;
                requests_get := fun _ => HttpRaises connection_error;
                t_setitem := 3600 |};
  w_cache := [{| link_key := quoted_url; link_value := example_result;
                 link_expires := 3600 |}];
  w_textstat := None;
  w_probe := {| perf_start := 0;
                session_get := fun _ _ => ProbeReads 200 2048 (1 # 2) None |}
|}.

Definition is_ascii (c : pychar) : bool := (c <? 128)%N.


(** What [index] answers to a visitor who has not subscribed and whose
    trial started at [start]. *)
Definition trial_answer (start t1 : Z) : response :=
  if (start + one_day <? t1)%Z then Redirect "subscribe"
  else Render "index.html".

Definition is_payment (r : route) : bool :=
  match r with PaymentSuccess => true | _ => false end.
Definition is_index (r : route) : bool :=
  match r with Index => true | _ => false end.

(** Three visits of a new visitor: at once, after 12 hours, after 25. *)
Definition three_visits : list (route * Z * Z) :=
  [(Index, 0, 0); (Index, 43200000000, 43200000000);
   (Index, 90000000000, 90000000000)]%Z.

(* ===================================================================== *)
(** * Properties *)
(* ===================================================================== *)

(** ** Lists *)

Lemma first_index_elem (w : pystr) (ws : list pystr) :
  w ∈ ws <-> (first_index w ws < length ws)%nat.
Proof.
  induction ws as [|x ws IH]; simpl.
  - split; [intros H; inversion H | lia].
  - destruct (decide (x = w)) as [->|Hne].
    + split; [lia | intros _; left].
    + rewrite elem_of_cons, IH. split.
      * intros [->|H]; [congruence | lia].
      * intros H; right; lia.
Qed.

Lemma first_index_app_l (w : pystr) (ws vs : list pystr) :
  w ∈ ws -> first_index w (ws ++ vs) = first_index w ws.
Proof.
  induction ws as [|x ws IH]; simpl; intros H.
  - inversion H.
  - destruct (decide (x = w)); [reflexivity|].
    f_equal. apply IH. apply elem_of_cons in H as [->|H]; [congruence | exact H].
Qed.

Lemma first_index_app_r (w : pystr) (ws vs : list pystr) :
  w ∉ ws -> first_index w (ws ++ vs) = (length ws + first_index w vs)%nat.
Proof.
  induction ws as [|x ws IH]; simpl; intros H; [reflexivity|].
  rewrite not_elem_of_cons in H. destruct H as [Hne H].
  destruct (decide (x = w)); [congruence|]. f_equal. apply IH, H.
Qed.

(** Filtering a list keeps the order of the first occurrences of the words
    it keeps. *)
Lemma first_index_filter (P : pystr -> bool) (a b : pystr) (ws : list pystr) :
  P a = true -> P b = true ->
  (first_index a (List.filter P ws) < first_index b (List.filter P ws))%nat ->
  (first_index a ws < first_index b ws)%nat.
Proof.
  intros Ha Hb. induction ws as [|x ws IH]; simpl; [lia|].
  destruct (P x) eqn:Hx; simpl.
  - destruct (decide (x = a)), (decide (x = b)); lia.
  - destruct (decide (x = a)) as [->|]; [congruence|].
    destruct (decide (x = b)) as [->|]; [congruence|]. lia.
Qed.

Lemma StronglySorted_lookup {A : Type} (R : A -> A -> Prop) (l : list A)
    (i j : nat) (a b : A) :
  StronglySorted R l -> (i < j)%nat ->
  l !! i = Some a -> l !! j = Some b -> R a b.
Proof.
  intros Hs. revert i j. induction Hs as [|x l Hs IH Hx]; intros i j Hij Hi Hj.
  - rewrite lookup_nil in Hi. discriminate.
  - destruct j as [|j]; [lia|]. simpl in Hj. destruct i as [|i]; simpl in Hi.
    + injection Hi as <-. rewrite Forall_forall in Hx. apply Hx.
      eapply list_elem_of_lookup_2, Hj.
    + eapply IH; [|exact Hi|exact Hj]. lia.
Qed.

Lemma StronglySorted_firstn {A : Type} (R : A -> A -> Prop) (n : nat)
    (l : list A) :
  StronglySorted R l -> StronglySorted R (firstn n l).
Proof.
  intros Hs. rewrite <- (firstn_skipn n l) in Hs.
  eapply StronglySorted_app_1_l, Hs.
Qed.

(** ** keyword_utils: the counter *)

Lemma Counter_snoc (ws : list pystr) (w : pystr) :
  Counter (ws ++ [w]) = counter_add w (Counter ws).
Proof. unfold Counter. rewrite fold_left_app. reflexivity. Qed.

Lemma keys_counter_add (w : pystr) (c : list (pystr * nat)) :
  keys (counter_add w c) = if decide (w ∈ keys c) then keys c else keys c ++ [w].
Proof.
  induction c as [|[k n] c IH]; simpl.
  - destruct (decide (w ∈ keys [])) as [H|_]; [inversion H | reflexivity].
  - destruct (decide (k = w)) as [->|Hne]; simpl.
    + destruct (decide (w ∈ w :: keys c)) as [_|H]; [reflexivity|].
      exfalso. apply H. left.
    + fold (keys c). fold (keys (counter_add w c)). rewrite IH.
      destruct (decide (w ∈ keys c)) as [Hin|Hout].
      * destruct (decide (w ∈ k :: keys c)) as [_|H]; [reflexivity|].
        exfalso. apply H. right. exact Hin.
      * destruct (decide (w ∈ k :: keys c)) as [H|_]; [|reflexivity].
        apply elem_of_cons in H as [->|H]; [congruence | contradiction].
Qed.

(** The keys of the counter are the words counted. *)
Lemma keys_Counter_elem (ws : list pystr) (w : pystr) :
  w ∈ keys (Counter ws) <-> w ∈ ws.
Proof.
  induction ws as [|x ws IH] using rev_ind.
  - reflexivity.
  - rewrite Counter_snoc, keys_counter_add, elem_of_app, list_elem_of_singleton.
    destruct (decide (x ∈ keys (Counter ws))) as [Hin|Hout].
    + rewrite IH. split; [tauto|]. intros [H| ->]; [exact H | apply IH, Hin].
    + rewrite elem_of_app, list_elem_of_singleton, IH. reflexivity.
Qed.

(** The keys of the counter are in the order of their first occurrence. *)
Lemma keys_Counter_sorted (ws : list pystr) :
  StronglySorted (fun a b => (first_index a ws < first_index b ws)%nat)
                 (keys (Counter ws)).
Proof.
  induction ws as [|x ws IH] using rev_ind.
  - constructor.
  - assert (Hmono : StronglySorted
      (fun a b => (first_index a (ws ++ [x]) < first_index b (ws ++ [x]))%nat)
      (keys (Counter ws))).
    { assert (Hall : Forall (fun a => a ∈ ws) (keys (Counter ws))).
      { apply Forall_forall. intros a Ha. apply keys_Counter_elem, Ha. }
      revert Hall. induction IH as [|a l Hs IHs Ha]; intros Hall.
      - constructor.
      - apply Forall_cons in Hall as [Hin Hall]. constructor; [auto|].
        rewrite Forall_forall in *. intros b Hb.
        rewrite !first_index_app_l by auto. auto. }
    rewrite Counter_snoc, keys_counter_add.
    destruct (decide (x ∈ keys (Counter ws))) as [Hin|Hout]; [exact Hmono|].
    apply StronglySorted_app. split; [|split; [exact Hmono | repeat constructor]].
    intros a b Ha Hb. apply list_elem_of_singleton in Hb as ->.
    rewrite keys_Counter_elem in Ha, Hout.
    rewrite first_index_app_l by exact Ha.
    rewrite first_index_app_r by exact Hout.
    apply first_index_elem in Ha. lia.
Qed.

(** ** keyword_utils: the sort *)

Lemma sorted_desc_snoc (l : list (pystr * nat)) (x : pystr * nat) :
  sorted_desc (l ++ [x]) = insert_desc x (sorted_desc l).
Proof. unfold sorted_desc. rewrite fold_left_app. reflexivity. Qed.

Lemma insert_desc_elem (x y : pystr * nat) (l : list (pystr * nat)) :
  y ∈ insert_desc x l <-> y = x \/ y ∈ l.
Proof.
  induction l as [|z l IH]; simpl.
  - rewrite list_elem_of_singleton. split; [tauto|].
    intros [H|H]; [exact H | inversion H].
  - destruct (snd z <? snd x)%nat.
    + rewrite elem_of_cons. reflexivity.
    + rewrite !elem_of_cons, IH. tauto.
Qed.

Lemma sorted_desc_elem (y : pystr * nat) (l : list (pystr * nat)) :
  y ∈ sorted_desc l <-> y ∈ l.
Proof.
  induction l as [|x l IH] using rev_ind.
  - reflexivity.
  - rewrite sorted_desc_snoc, insert_desc_elem, IH, elem_of_app,
      list_elem_of_singleton. tauto.
Qed.

Section Stable.
Variable ws : list pystr.

#[local] Abbreviation idx := (item_index ws).

Lemma before_in_count (a b : pystr * nat) :
  before_in ws a b -> (snd b <= snd a)%nat.
Proof. intros [H|[H _]]; lia. Qed.

(** An item that comes later in the counter than all items of a sorted list
    is inserted behind the items that have at least its count. *)
Lemma insert_desc_sorted (x : pystr * nat) (l : list (pystr * nat)) :
  StronglySorted (before_in ws) l ->
  Forall (fun e => (idx e < idx x)%nat) l ->
  StronglySorted (before_in ws) (insert_desc x l).
Proof.
  intros Hs. induction Hs as [|y l Hs IH Hy]; intros Hlt; simpl.
  - repeat constructor.
  - apply Forall_cons in Hlt as [Hyx Hlt].
    destruct (snd y <? snd x)%nat eqn:Hc.
    + apply Nat.ltb_lt in Hc. constructor; [constructor; assumption|].
      constructor; [left; exact Hc|].
      rewrite Forall_forall in *. intros e He. left.
      specialize (Hy e He). apply before_in_count in Hy. lia.
    + apply Nat.ltb_ge in Hc. constructor; [apply IH, Hlt|].
      rewrite Forall_forall in *. intros e He.
      apply insert_desc_elem in He as [->|He]; [|apply Hy, He].
      unfold before_in. unfold item_index in Hyx. lia.
Qed.

Lemma sorted_desc_sorted (l : list (pystr * nat)) :
  StronglySorted (fun a b => (idx a < idx b)%nat) l ->
  StronglySorted (before_in ws) (sorted_desc l).
Proof.
  induction l as [|x l IH] using rev_ind; intros Hs.
  - constructor.
  - apply StronglySorted_app in Hs as (Hlx & Hl & _).
    rewrite sorted_desc_snoc. apply insert_desc_sorted; [apply IH, Hl|].
    apply Forall_forall. intros e He. rewrite sorted_desc_elem in He.
    apply Hlx; [exact He | apply list_elem_of_singleton; reflexivity].
Qed.

End Stable.

(** ** keyword_utils: [extract_keywords] *)

Lemma keep_word_spec (w : pystr) :
  keep_word w = true <-> (w ∉ STOP_WORDS) /\ (2 < length w)%nat.
Proof.
  unfold keep_word. rewrite andb_true_iff, bool_decide_eq_true, Nat.ltb_lt.
  reflexivity.
Qed.

Lemma extract_keywords_unfold (text : pystr) (top_n : Z) :
  extract_keywords text top_n
  = map to_record
      (firstn (Z.to_nat top_n)
         (sorted_desc (Counter (List.filter keep_word (tokens text))))).
Proof. reflexivity. Qed.

(** Every word counted passed the filter. *)
Lemma counted_kept (text : pystr) (kc : pystr * nat) :
  kc ∈ sorted_desc (Counter (List.filter keep_word (tokens text))) ->
  keep_word (fst kc) = true.
Proof.
  intros H. rewrite sorted_desc_elem in H.
  assert (Hk : fst kc ∈ keys (Counter (List.filter keep_word (tokens text)))).
  { unfold keys. apply list_elem_of_fmap. exists kc. split; [reflexivity | exact H]. }
  rewrite keys_Counter_elem, list_elem_of_In, filter_In in Hk. apply Hk.
Qed.

(** The items leave the sort ranked by count, ties by first occurrence among
    the tokens of the text. *)
Lemma ranked_items (text : pystr) :
  StronglySorted (before_in (tokens text))
    (sorted_desc (Counter (List.filter keep_word (tokens text)))).
Proof.
  set (ws := List.filter keep_word (tokens text)).
  assert (Hs : StronglySorted (before_in ws) (sorted_desc (Counter ws))).
  { apply sorted_desc_sorted.
    pose proof (keys_Counter_sorted ws) as Hk. unfold keys in Hk.
    induction (Counter ws) as [|a c IHc]; [constructor|].
    simpl in Hk. apply StronglySorted_cons in Hk as [Ha Hk].
    constructor; [apply IHc, Hk|].
    apply Forall_forall. intros b Hb.
    rewrite Forall_forall in Ha. apply Ha.
    apply list_elem_of_fmap. exists b. split; [reflexivity | exact Hb]. }
  assert (Hall : Forall (fun kc => keep_word (fst kc) = true)
                        (sorted_desc (Counter ws))).
  { apply Forall_forall. intros kc. apply counted_kept. }
  induction Hs as [|a l Hs IH Ha]; [constructor|].
  apply Forall_cons in Hall as [Hka Hall]. constructor; [apply IH, Hall|].
  rewrite Forall_forall in *. intros b Hb.
  destruct (Ha b Hb) as [Hlt|[Heq Hidx]]; [left; exact Hlt|].
  right. split; [exact Heq|].
  eapply first_index_filter; [exact Hka | apply Hall, Hb | exact Hidx].
Qed.

Lemma extract_keywords_sorted (text : pystr) (top_n : Z) :
  StronglySorted (ranked_before (tokens text)) (extract_keywords text top_n).
Proof.
  rewrite extract_keywords_unfold.
  apply (StronglySorted_fmap to_record (before_in (tokens text))).
  - intros [k1 n1] [k2 n2] H. exact H.
  - apply StronglySorted_firstn, ranked_items.
Qed.

(** The ranking, position by position: an earlier record has at least the
    count of a later one, and with equal counts its keyword occurs first. *)
Corollary extract_keywords_positions (text : pystr) (top_n : Z)
    (i j : nat) (a b : KeywordRecord) :
  (i < j)%nat ->
  extract_keywords text top_n !! i = Some a ->
  extract_keywords text top_n !! j = Some b ->
  (count b <= count a)%nat
  /\ (count a = count b ->
      (first_index (keyword a) (tokens text)
       < first_index (keyword b) (tokens text))%nat).
Proof.
  intros Hij Ha Hb.
  pose proof (StronglySorted_lookup _ _ i j a b
                (extract_keywords_sorted text top_n) Hij Ha Hb) as [H|[He H]];
    simpl in *; split; lia.
Qed.

(** C4, as the code has it.  For every text and every [top_n],
    [extract_keywords] returns at most [max(0, top_n)] records (none when
    [top_n <= 0]); the records are ranked by count, largest first, and
    records with equal counts are in the order in which their keywords first
    occur among the lower-cased tokens of the text; no keyword is a stop word
    or has length 2 or less; and
    [extract_keywords("the the the cat cat dog", top_n=2)] is
    [[cat: 2, dog: 1]]. *)
Theorem extract_keywords_ranked (text : pystr) (top_n : Z) :
  let r := extract_keywords text top_n in
  (Z.of_nat (length r) <= Z.max 0 top_n)%Z
  /\ StronglySorted (ranked_before (tokens text)) r
  /\ Forall (fun a => (keyword a ∉ STOP_WORDS)
                      /\ (2 < length (keyword a))%nat) r
  /\ extract_keywords (py "the the the cat cat dog") 2
     = [ {| keyword := py "cat"; count := 2 |};
         {| keyword := py "dog"; count := 1 |} ].
Proof.
  intros r. subst r. rewrite extract_keywords_unfold.
  set (items := sorted_desc (Counter (List.filter keep_word (tokens text)))).
  split; [|split; [|split]].
  - rewrite length_map, length_firstn. lia.
  - apply extract_keywords_sorted.
  - apply Forall_forall. intros a Ha.
    apply list_elem_of_fmap in Ha as (kc & -> & Hkc).
    assert (Hin : kc ∈ items).
    { rewrite <- (firstn_skipn (Z.to_nat top_n) items).
      apply elem_of_app. left. exact Hkc. }
    apply keep_word_spec, (counted_kept text), Hin.
  - vm_compute. reflexivity.
Qed.

(** C4, the count bound as stated fails for a negative [top_n]: the result
    is the empty list, which has more than [top_n] records. *)
Lemma extract_keywords_negative_top_n :
  extract_keywords (py "the the the cat cat dog") (-1) = []
  /\ ~ (Z.of_nat (length (extract_keywords (py "the the the cat cat dog") (-1)))
        <= -1)%Z.
Proof. split; [vm_compute; reflexivity | vm_compute; intros H; apply H; reflexivity]. Qed.

(** ** Rounding *)

Lemma round_half_even_close (q : Q) :
  (q - (1 # 2) <= inject_Z (round_half_even q) <= q + (1 # 2))%Q.
Proof.
  unfold round_half_even.
  pose proof (Qfloor_le q) as Hlo. pose proof (Qlt_floor q) as Hhi.
  rewrite inject_Z_plus in Hhi. change (inject_Z 1) with 1%Q in Hhi.
  destruct (Qcompare_spec (q - inject_Z (Qfloor q)) (1 # 2)) as [He|Hl|Hg].
  - destruct (Z.even (Qfloor q)).
    + split; lra.
    + rewrite inject_Z_plus. change (inject_Z 1) with 1%Q. split; lra.
  - split; lra.
  - rewrite inject_Z_plus. change (inject_Z 1) with 1%Q. split; lra.
Qed.

(** [round(x, 2)] is a whole number of hundredths, at most half a hundredth
    away from [x]. *)
Lemma py_round_2 (x : Q) :
  (py_round x 2 == inject_Z (round_half_even (x * 100)) / 100)%Q
  /\ (x - (1 # 200) <= py_round x 2 <= x + (1 # 200))%Q.
Proof.
  unfold py_round. change (inject_Z (10 ^ Z.of_nat 2)) with 100%Q.
  split; [reflexivity|].
  pose proof (round_half_even_close (x * 100)) as [Hlo Hhi].
  set (k := inject_Z (round_half_even (x * 100))) in *.
  split.
  - apply Qle_shift_div_l; lra.
  - apply Qle_shift_div_r; lra.
Qed.

(** ** readability_utils *)

Lemma truediv_returns (a b : Z) :
  b <> 0%Z -> truediv a b = Returned (inject_Z a / inject_Z b)%Q.
Proof.
  intros Hb. unfold truediv. destruct (Z.eqb_spec b 0); [contradiction|].
  reflexivity.
Qed.

Lemma flesch_words_count_max (text : pystr) :
  flesch_words_count text
  = Z.max 1 (Z.of_nat (length (findall_letters text))).
Proof.
  unfold flesch_words_count. destruct (findall_letters text); [reflexivity|].
  simpl length. lia.
Qed.

Lemma flesch_sentences_count_max (text : pystr) :
  flesch_sentences_count text
  = Z.max 1 (Z.of_nat (length (List.filter (fun s => truthy (strip s))
                                           (split_on is_sentence_end text)))).
Proof.
  unfold flesch_sentences_count.
  destruct (Z.eqb_spec
    (Z.of_nat (length (List.filter (fun s => truthy (strip s))
                                   (split_on is_sentence_end text)))) 0); lia.
Qed.

Lemma syllable_count_min (word : pystr) : (1 <= _syllable_count word)%Z.
Proof. unfold _syllable_count. apply Z.le_max_l. Qed.

Lemma flesch_counts_nonzero (text : pystr) :
  flesch_words_count text <> 0%Z /\ flesch_sentences_count text <> 0%Z.
Proof. rewrite flesch_words_count_max, flesch_sentences_count_max. lia. Qed.

Lemma flesch_manual_value (text : pystr) :
  _flesch_reading_ease_manual text
  = Returned ((206835 # 1000)
              - (1015 # 1000)
                * (inject_Z (flesch_words_count text)
                   / inject_Z (flesch_sentences_count text))
              - (846 # 10)
                * (inject_Z (flesch_syllables_count text)
                   / inject_Z (flesch_words_count text)))%Q.
Proof.
  destruct (flesch_counts_nonzero text) as [Hw Hs].
  unfold _flesch_reading_ease_manual.
  rewrite (truediv_returns _ _ Hs), (truediv_returns _ _ Hw). reflexivity.
Qed.

(** C6.  The manual Flesch formula returns on every text: a word count or a
    sentence count of zero is replaced by 1, so both divisions have a
    divisor that is not zero and return, and the result is
    [206.835 - 1.015 * (words / sentences) - 84.6 * (syllables / words)];
    on the empty text it is 205.82.  The syllable estimate of every word is
    at least 1. *)
Theorem flesch_manual_total (text : pystr) :
  let words_count := flesch_words_count text in
  let sentences_count := flesch_sentences_count text in
  let syllables_count := flesch_syllables_count text in
  words_count = Z.max 1 (Z.of_nat (length (findall_letters text)))
  /\ sentences_count
     = Z.max 1 (Z.of_nat (length (List.filter (fun s => truthy (strip s))
                                    (split_on is_sentence_end text))))
  /\ truediv words_count sentences_count
     = Returned (inject_Z words_count / inject_Z sentences_count)%Q
  /\ truediv syllables_count words_count
     = Returned (inject_Z syllables_count / inject_Z words_count)%Q
  /\ _flesch_reading_ease_manual text
     = Returned ((206835 # 1000)
                 - (1015 # 1000)
                   * (inject_Z words_count / inject_Z sentences_count)
                 - (846 # 10)
                   * (inject_Z syllables_count / inject_Z words_count))%Q
  /\ (exists q, _flesch_reading_ease_manual [] = Returned q
                /\ (q == 20582 # 100)%Q)
  /\ (forall word, (1 <= _syllable_count word)%Z).
Proof.
  intros words_count sentences_count syllables_count.
  destruct (flesch_counts_nonzero text) as [Hw Hs].
  repeat split.
  - apply flesch_words_count_max.
  - apply flesch_sentences_count_max.
  - apply truediv_returns, Hs.
  - apply truediv_returns, Hw.
  - apply flesch_manual_value.
  - eexists. split; [vm_compute; reflexivity | reflexivity].
  - apply syllable_count_min.
Qed.

Lemma manual_returns (text : pystr) :
  exists q, _flesch_reading_ease_manual text = Returned q.
Proof. eexists. apply flesch_manual_value. Qed.

(** Whatever [textstat] does, a score is obtained. *)
Lemma readability_score_returns (textstat : textstat_t) (text : pystr) :
  exists s, readability_score textstat text = Returned s.
Proof.
  unfold readability_score. destruct textstat as [flesch_reading_ease|].
  - destruct (flesch_reading_ease text) as [s|e]; simpl.
    + exists s. reflexivity.
    + apply manual_returns.
  - apply manual_returns.
Qed.

Lemma qge_true (x : Q) (n : Z) : qge x n = true <-> (inject_Z n <= x)%Q.
Proof. unfold qge. apply Qle_bool_iff. Qed.

Lemma qge_false (x : Q) (n : Z) : qge x n = false <-> (x < inject_Z n)%Q.
Proof.
  unfold qge. rewrite <- not_true_iff_false, Qle_bool_iff. split.
  - apply Qnot_le_lt.
  - apply Qlt_not_le.
Qed.

(** The seven bands, each closed at its lower boundary. *)
Lemma interpret_bands (x : Q) :
  ((90 <= x)%Q -> interpret x = py "Very easy (5th grade)")
  /\ ((80 <= x < 90)%Q -> interpret x = py "Easy (6th grade)")
  /\ ((70 <= x < 80)%Q -> interpret x = py "Fairly easy")
  /\ ((60 <= x < 70)%Q ->
      interpret x = py "Standard (8th" ++ en_dash ++ py "9th grade)")
  /\ ((50 <= x < 60)%Q ->
      interpret x = py "Fairly difficult (10th" ++ en_dash ++ py "12th grade)")
  /\ ((30 <= x < 50)%Q -> interpret x = py "Difficult (college)")
  /\ ((x < 30)%Q -> interpret x = py "Very confusing").
Proof.
  unfold interpret.
  destruct (qge x 90) eqn:H90; [apply qge_true in H90|apply qge_false in H90];
  (destruct (qge x 80) eqn:H80; [apply qge_true in H80|apply qge_false in H80]);
  (destruct (qge x 70) eqn:H70; [apply qge_true in H70|apply qge_false in H70]);
  (destruct (qge x 60) eqn:H60; [apply qge_true in H60|apply qge_false in H60]);
  (destruct (qge x 50) eqn:H50; [apply qge_true in H50|apply qge_false in H50]);
  (destruct (qge x 30) eqn:H30; [apply qge_true in H30|apply qge_false in H30]);
  change (inject_Z 90) with 90%Q in *; change (inject_Z 80) with 80%Q in *;
  change (inject_Z 70) with 70%Q in *; change (inject_Z 60) with 60%Q in *;
  change (inject_Z 50) with 50%Q in *; change (inject_Z 30) with 30%Q in *;
  repeat split; intros; first [reflexivity | exfalso; lra].
Qed.

(** The rounded score is on the same side of a boundary as the score,
    unless it is the boundary itself. *)
Lemma qge_py_round (s : Q) (T : Z) :
  ~ (py_round s 2 == inject_Z T)%Q -> qge s T = qge (py_round s 2) T.
Proof.
  intros Hne. destruct (py_round_2 s) as [Hk _].
  pose proof (round_half_even_close (s * 100)) as [Hlo Hhi].
  set (k := round_half_even (s * 100)) in *.
  assert (HT : (inject_Z (100 * T) == 100 * inject_Z T)%Q)
    by (rewrite inject_Z_mult; reflexivity).
  destruct (Z.lt_trichotomy k (100 * T)) as [Hlt|[Heq|Hgt]].
  - assert (Hq : (inject_Z k + 1 <= 100 * inject_Z T)%Q).
    { rewrite <- HT. change 1%Q with (inject_Z 1).
      rewrite <- inject_Z_plus, <- Zle_Qle. lia. }
    transitivity false; [|symmetry]; apply qge_false.
    + lra.
    + rewrite Hk. apply Qlt_shift_div_r; [reflexivity | lra].
  - exfalso. apply Hne. rewrite Hk, Heq, HT. field.
  - assert (Hq : (100 * inject_Z T + 1 <= inject_Z k)%Q).
    { rewrite <- HT. change 1%Q with (inject_Z 1).
      rewrite <- inject_Z_plus, <- Zle_Qle. lia. }
    transitivity true; [|symmetry]; apply qge_true.
    + lra.
    + rewrite Hk. apply Qle_shift_div_l; [reflexivity | lra].
Qed.

(** The interpretation only looks at the side of each boundary. *)
Lemma interpret_same (x y : Q) :
  (forall T, In T band_boundaries -> qge x T = qge y T) ->
  interpret x = interpret y.
Proof.
  intros H. unfold interpret.
  rewrite (H 90), (H 80), (H 70), (H 60), (H 50), (H 30);
    [reflexivity | | | | | |]; simpl; tauto.
Qed.

(** A score within half a hundredth of a boundary is in the band that starts
    at the boundary or in the one just below. *)
Lemma interpret_near (s : Q) (T : Z) :
  In T band_boundaries ->
  (inject_Z T - (1 # 200) <= s <= inject_Z T + (1 # 200))%Q ->
  interpret s = interpret (inject_Z T)
  \/ interpret s = interpret (inject_Z (T - 1)).
Proof.
  intros HT Hs. destruct (Qlt_le_dec s (inject_Z T)) as [Hlt|Hge];
    [right | left]; apply interpret_same; intros T' HT';
    simpl in HT, HT';
    repeat (destruct HT as [<-|HT]; [|try contradiction]);
    repeat (destruct HT' as [<-|HT']; [|try contradiction]);
    (destruct (qge s _) eqn:E;
     [apply qge_true in E | apply qge_false in E]);
    unfold inject_Z in *; first [reflexivity | exfalso; lra].
Qed.

(** C5, as the claim has it, fails.  The text has 19 words, 18 sentences and
    26 syllables, so its Flesch score is 89.9951...; the result carries the
    score 90, and the level of the band below 90, which is not the level of
    a score of 90. *)
Theorem score_90_rated_easy :
  flesch_words_count borderline_text = 19%Z
  /\ flesch_sentences_count borderline_text = 18%Z
  /\ flesch_syllables_count borderline_text = 26%Z
  /\ exists r,
       compute_readability None borderline_text = Returned r
       /\ (score r == 90)%Q
       /\ level r = py "Easy (6th grade)"
       /\ level r <> interpret 90
       /\ startswith (level r) (py "Very easy") = false.
Proof.
  split; [reflexivity|]. split; [reflexivity|]. split; [reflexivity|].
  eexists. split; [vm_compute; reflexivity|]. split; [reflexivity|].
  split; [reflexivity|]. split; [|reflexivity].
  intros E. vm_compute in E. discriminate E.
Qed.

(** C5, as the code has it.  For a given [textstat] and text,
    [compute_readability] returns one result and no other: its [score] is
    the Flesch score [s] rounded to two decimals, less than a hundredth away
    from [s], and its [level] is the band of [s], the score before it is
    rounded, among seven bands with closed lower boundaries 90, 80, 70, 60,
    50 and 30, under the labels of the code; a score [s] of exactly 90 is
    "Very easy (5th grade)".  The level is the band of the score returned
    unless that score is one of the six boundaries; then it is the band that
    starts at the boundary or the one just below. *)
Theorem compute_readability_bands (textstat : textstat_t) (text : pystr) :
  exists s : Q,
    readability_score textstat text = Returned s
    /\ (forall r, compute_readability textstat text = Returned r <->
                  r = {| score := py_round s 2; level := interpret s |})
    /\ (s - (1 # 100) < py_round s 2 < s + (1 # 100))%Q
    /\ (forall x : Q,
          ((90 <= x)%Q -> interpret x = py "Very easy (5th grade)")
          /\ ((80 <= x < 90)%Q -> interpret x = py "Easy (6th grade)")
          /\ ((70 <= x < 80)%Q -> interpret x = py "Fairly easy")
          /\ ((60 <= x < 70)%Q ->
              interpret x = py "Standard (8th" ++ en_dash ++ py "9th grade)")
          /\ ((50 <= x < 60)%Q ->
              interpret x
              = py "Fairly difficult (10th" ++ en_dash ++ py "12th grade)")
          /\ ((30 <= x < 50)%Q -> interpret x = py "Difficult (college)")
          /\ ((x < 30)%Q -> interpret x = py "Very confusing"))
    /\ interpret 90 = py "Very easy (5th grade)"
    /\ ((forall T, In T band_boundaries ->
                   ~ (py_round s 2 == inject_Z T)%Q) ->
        interpret s = interpret (py_round s 2))
    /\ (forall T, In T band_boundaries ->
                  (py_round s 2 == inject_Z T)%Q ->
                  interpret s = interpret (inject_Z T)
                  \/ interpret s = interpret (inject_Z (T - 1))).
Proof.
  destruct (readability_score_returns textstat text) as [s Hs].
  destruct (py_round_2 s) as [_ Hclose].
  exists s. split; [exact Hs|].
  split; [|split; [|split; [|split; [|split]]]].
  - intros r. unfold compute_readability. rewrite Hs. simpl. split.
    + intros H. injection H as <-. reflexivity.
    + intros ->. reflexivity.
  - split; lra.
  - apply interpret_bands.
  - reflexivity.
  - intros Hne. apply interpret_same. intros T HT.
    apply qge_py_round, Hne, HT.
  - intros T HT Heq. apply interpret_near; [exact HT|].
    rewrite <- Heq. split; lra.
Qed.

(** ** performance_utils *)

Lemma dom_perf_failure (error : pystr) :
  dom (perf_failure error) = ({[ "status_code"; "error" ]} : gset string).
Proof. unfold perf_failure. rewrite !dom_insert_L, dom_empty_L. set_solver. Qed.

Lemma dom_perf_success (st : Z) (t k : Q) :
  dom (perf_success st t k)
  = ({[ "status_code"; "response_time_seconds"; "page_size_kb" ]} : gset string).
Proof. unfold perf_success. rewrite !dom_insert_L, dom_empty_L. set_solver. Qed.

(** C3, as the code has it.  For every URL and every behaviour of the
    network, [analyze_performance] returns and does not raise.  When the
    probe ends with an exception [exc] the result is exactly
    [{status_code: -1, error: str(exc)}], whose [error] is empty when the
    message of the exception is; otherwise it is exactly
    [{status_code, response_time_seconds, page_size_kb}] with the time
    rounded to 3 and the size to 2 decimals.  The key sets of the two shapes
    differ, so no result mixes them. *)
Theorem analyze_performance_shapes (w : ProbeWorld) (url : pystr) :
  let p := session_get w url (startswith url (py "https")) in
  exists result : gmap string perf_value,
    analyze_performance w url = Returned result
    /\ match probe_failure p with
       | Some exc =>
           result = perf_failure (exn_str exc)
           /\ dom result = ({[ "status_code"; "error" ]} : gset string)
       | None =>
           (exists status_code content_length end_time,
               p = ProbeReads status_code content_length end_time None
               /\ result
                  = perf_success status_code
                      (py_round (end_time - perf_start w) 3)
                      (py_round (inject_Z (Z.of_nat content_length)
                                 / inject_Z 1024) 2))
           /\ dom result
              = ({[ "status_code"; "response_time_seconds"; "page_size_kb" ]}
                 : gset string)
           /\ result !! "error" = None
       end.
Proof.
  intros p. unfold analyze_performance. fold p.
  destruct p as [e|status_code content_length end_time [e|]]; simpl.
  - eexists. split; [reflexivity|]. split; [reflexivity|].
    apply dom_perf_failure.
  - eexists. split; [reflexivity|]. split; [reflexivity|].
    apply dom_perf_failure.
  - eexists. split; [reflexivity|]. split; [|split].
    + exists status_code, content_length, end_time. split; reflexivity.
    + apply dom_perf_success.
    + reflexivity.
Qed.

(** C3, the error string need not be non-empty: a probe that times out
    yields [{status_code: -1, error: ""}]. *)
Lemma analyze_performance_empty_error :
  probe_failure (session_get timeout_world (py "https://example.com") true)
  <> None
  /\ analyze_performance timeout_world (py "https://example.com")
     = Returned (perf_failure [])
  /\ ~ (exists error : pystr,
          error <> []
          /\ analyze_performance timeout_world (py "https://example.com")
             = Returned (perf_failure error)).
Proof.
  split; [discriminate|]. split; [reflexivity|].
  intros (error & Hne & H). apply Hne.
  apply (f_equal (fun o => match o with
                           | Returned m => m !! "error"
                           | Raised _ => None
                           end)) in H.
  vm_compute in H. congruence.
Qed.

(** ** ai_search_optimizer *)

Lemma is_some_head_filter {A : Type} (p : A -> bool) (l : list A) :
  is_some (head (List.filter p l)) = existsb p l.
Proof.
  induction l as [|x l IH]; simpl; [reflexivity|].
  destruct (p x); simpl; [reflexivity | exact IH].
Qed.

Lemma filter_nil_existsb {A : Type} (p : A -> bool) (l : list A) :
  List.filter p l = [] <-> existsb p l = false.
Proof.
  induction l as [|x l IH]; simpl; [tauto|].
  destruct (p x); simpl; [split; discriminate | exact IH].
Qed.

Lemma head_filter_find {A : Type} (p : A -> bool) (l : list A) :
  head (List.filter p l) = List.find p l.
Proof.
  induction l as [|x l IH]; simpl; [reflexivity|].
  destruct (p x); simpl; [reflexivity | exact IH].
Qed.

Lemma named_pair (a b : pystr) (n : node) :
  named [a; b] n = named [a] n || named [b] n.
Proof.
  unfold named. apply eq_true_iff_eq.
  rewrite orb_true_iff, !bool_decide_eq_true, !elem_of_cons. 
  split; [intros [H|[H|H]]; [tauto|tauto|inversion H]|].
  intros [[H|H]|[H|H]]; try tauto; inversion H.
Qed.

Lemma existsb_named_pair (a b : pystr) (l : list node) :
  existsb (named [a; b]) l = existsb (named [a]) l || existsb (named [b]) l.
Proof.
  induction l as [|x l IH]; simpl; [reflexivity|].
  rewrite IH, named_pair.
  destruct (named [a] x), (named [b] x), (existsb (named [a]) l); reflexivity.
Qed.

Lemma is_some_find (doc : soup) (p : node -> bool) :
  is_some (find doc p) = exists_tag doc p.
Proof. apply is_some_head_filter. Qed.

(** The quotient of step 6 is over 25 exactly when there are more than 25
    words per sentence. *)
Lemma avg_over_25 (words n : Z) :
  (0 < n)%Z ->
  negb (Qle_bool (inject_Z words / inject_Z n) 25) = (25 * n <? words)%Z.
Proof.
  intros Hn. apply eq_true_iff_eq.
  rewrite negb_true_iff, <- not_true_iff_false, Qle_bool_iff, Z.ltb_lt.
  assert (Hq : (0 < inject_Z n)%Q).
  { change 0%Q with (inject_Z 0). rewrite <- Zlt_Qlt. exact Hn. }
  assert (Hiff : (inject_Z words / inject_Z n <= 25)%Q <-> (words <= 25 * n)%Z).
  { rewrite Zle_Qle, inject_Z_mult. change (inject_Z 25) with 25%Q. split.
    - intros H. apply Qmult_le_r with (z := inject_Z n) in H; [|exact Hq].
      rewrite Qmult_comm in H. rewrite Qmult_div_r in H; [exact H|].
      intros E. rewrite E in Hq. apply (Qlt_irrefl 0), Hq.
    - intros H. apply Qle_shift_div_r; [exact Hq | exact H]. }
  rewrite Hiff. lia.
Qed.

Lemma setdefault_append_nonempty (key : string) (msg : pystr)
    (m : gmap string (list pystr)) :
  default [] (m !! key) ++ [msg] <> [].
Proof. destruct (default [] (m !! key)); discriminate. Qed.

Section Suggestions.
Variables (content : pystr) (html : soup).

#[local] Abbreviation justified := (justified content html).

Lemma justified_empty : justified ∅.
Proof. intros category l H. rewrite lookup_empty in H. discriminate. Qed.

Lemma justified_insert (key : string) (l : list pystr)
    (m : gmap string (list pystr)) :
  justified m -> l <> [] -> rule_fired key content html = true ->
  justified (<[key := l]> m).
Proof.
  intros Hm Hl Hk category l' H.
  destruct (decide (key = category)) as [<-|Hne].
  - rewrite lookup_insert_eq in H. injection H as <-. auto.
  - rewrite lookup_insert_ne in H by exact Hne. apply Hm, H.
Qed.

Lemma check_headings_fired (m : gmap string (list pystr)) :
  check_headings html m = m /\ rule_headings html = false
  \/ exists l, l <> [] /\ rule_headings html = true
               /\ check_headings html m = <["headings" := l]> m.
Proof.
  unfold check_headings, rule_headings, heading_count, find_all, count_tag.
  set (h1 := length (List.filter (named [py "h1"]) (descendants html))).
  set (h2 := length (List.filter (named [py "h2"]) (descendants html))).
  destruct (Z.eqb_spec (Z.of_nat h1) 1) as [E1|E1];
    destruct (Z.ltb_spec (Z.of_nat h2) 2) as [E2|E2];
    destruct (Nat.eqb_spec h1 1) as [N1|N1]; try lia;
    destruct (Nat.ltb_spec h2 2) as [N2|N2]; try lia; simpl;
    first [ left; split; reflexivity
          | right; eexists; split; [|split; reflexivity]; discriminate ].
Qed.

Lemma check_lists_fired (m : gmap string (list pystr)) :
  check_lists html m
  = if rule_lists html then setdefault_append "lists" msg_lists m else m.
Proof.
  unfold check_lists, rule_lists, exists_tag, find_all.
  rewrite <- existsb_named_pair.
  destruct (List.filter (named [py "ul"; py "ol"]) (descendants html))
    as [|x l] eqn:E.
  - apply filter_nil_existsb in E. rewrite E. reflexivity.
  - destruct (existsb (named [py "ul"; py "ol"]) (descendants html)) eqn:E';
      [reflexivity|].
    apply filter_nil_existsb in E'. congruence.
Qed.

Lemma check_schema_fired (m : gmap string (list pystr)) :
  check_schema html m
  = if rule_schema html then setdefault_append "schema" msg_schema m else m.
Proof.
  unfold check_schema, rule_schema. rewrite !is_some_find.
  destruct (exists_tag html is_json_ld),
    (exists_tag html (fun n => has_attr n (py "itemscope"))),
    (exists_tag html (fun n => has_attr n (py "itemtype"))); reflexivity.
Qed.

Lemma check_trust_fired (m : gmap string (list pystr)) :
  check_trust html m
  = if rule_trust html then setdefault_append "trust" msg_trust m else m.
Proof.
  unfold check_trust, rule_trust. rewrite !is_some_find.
  destruct (exists_tag html is_author_meta),
    (exists_tag html is_author_link); reflexivity.
Qed.

Lemma check_summary_fired (m : gmap string (list pystr)) :
  check_summary html m = m /\ rule_summary html = false
  \/ exists msg, rule_summary html = true
                 /\ check_summary html m = setdefault_append "summary" msg m.
Proof.
  unfold check_summary, rule_summary, first_paragraph, find, find_all.
  rewrite head_filter_find.
  destruct (List.find (named [py "p"]) (descendants html)) as [p|].
  - unfold word_count.
    destruct (Z.ltb_spec 50 (Z.of_nat (length (split_ws (get_text p)))));
      destruct (Nat.ltb_spec 50 (length (split_ws (get_text p)))); try lia.
    + right. exists msg_tldr. split; reflexivity.
    + left. split; reflexivity.
  - right. exists msg_intro. split; reflexivity.
Qed.

Lemma check_tone_fired (m : gmap string (list pystr)) :
  check_tone content m
  = if rule_tone content then setdefault_append "tone" msg_tone m else m.
Proof.
  unfold check_tone, rule_tone.
  destruct (tone_sentences content) as [|x l] eqn:E; [reflexivity|].
  rewrite avg_over_25; [reflexivity|]. simpl length. lia.
Qed.

Lemma analyze_justified : justified (analyze_ai_search_factors content html).
Proof.
  unfold analyze_ai_search_factors.
  assert (H1 : justified (check_headings html ∅)).
  { destruct (check_headings_fired ∅) as [[-> _]|(l & Hl & Hr & ->)].
    - apply justified_empty.
    - apply justified_insert; [apply justified_empty | exact Hl | exact Hr]. }
  revert H1. generalize (check_headings html ∅). intros m1 H1.
  assert (H2 : justified (check_lists html m1)).
  { rewrite check_lists_fired. destruct (rule_lists html) eqn:Hr; [|exact H1].
    apply justified_insert;
      [exact H1 | apply setdefault_append_nonempty | exact Hr]. }
  revert H2. generalize (check_lists html m1). intros m2 H2.
  assert (H3 : justified (check_schema html m2)).
  { rewrite check_schema_fired. destruct (rule_schema html) eqn:Hr; [|exact H2].
    apply justified_insert;
      [exact H2 | apply setdefault_append_nonempty | exact Hr]. }
  revert H3. generalize (check_schema html m2). intros m3 H3.
  assert (H4 : justified (check_trust html m3)).
  { rewrite check_trust_fired. destruct (rule_trust html) eqn:Hr; [|exact H3].
    apply justified_insert;
      [exact H3 | apply setdefault_append_nonempty | exact Hr]. }
  revert H4. generalize (check_trust html m3). intros m4 H4.
  assert (H5 : justified (check_summary html m4)).
  { destruct (check_summary_fired m4) as [[-> _]|(msg & Hr & ->)]; [exact H4|].
    apply justified_insert;
      [exact H4 | apply setdefault_append_nonempty | exact Hr]. }
  revert H5. generalize (check_summary html m4). intros m5 H5.
  rewrite check_tone_fired. destruct (rule_tone content) eqn:Hr; [|exact H5].
  apply justified_insert;
    [exact H5 | apply setdefault_append_nonempty | exact Hr].
Qed.

(** When no rule fires, no key is set. *)
Lemma analyze_no_rule :
  rule_headings html = false -> rule_lists html = false ->
  rule_schema html = false -> rule_trust html = false ->
  rule_summary html = false -> rule_tone content = false ->
  analyze_ai_search_factors content html = ∅.
Proof.
  intros Hh Hl Hs Ht Hp Hc. unfold analyze_ai_search_factors.
  destruct (check_headings_fired ∅) as [[-> _]|(l & _ & Hr & _)];
    [|congruence].
  rewrite check_lists_fired, Hl, check_schema_fired, Hs, check_trust_fired, Ht.
  destruct (check_summary_fired ∅) as [[-> _]|(msg & Hr & _)]; [|congruence].
  rewrite check_tone_fired, Hc. reflexivity.
Qed.

Lemma tidy_page_no_rule :
  tidy_page content html = true ->
  rule_headings html = false /\ rule_lists html = false
  /\ rule_schema html = false /\ rule_trust html = false
  /\ rule_summary html = false /\ rule_tone content = false.
Proof.
  unfold tidy_page. rewrite !andb_true_iff.
  intros ((((((H1 & H2) & Hul) & Hld) & Hau) & Hp) & Hc).
  apply Nat.eqb_eq in H1, H2. apply Z.leb_le in Hc.
  unfold rule_headings, rule_lists, rule_schema, rule_trust, rule_summary,
    rule_tone.
  rewrite H1, H2, Hul, Hld, Hau. repeat split; try reflexivity.
  - destruct (first_paragraph html) as [p|]; [|discriminate].
    apply Nat.leb_le in Hp. apply Nat.ltb_ge. exact Hp.
  - apply Z.ltb_ge. exact Hc.
Qed.

End Suggestions.

(** C9.  For every content text and HTML document, each key of the
    suggestion set returned is one of the six categories, its rule fired,
    and its list is not empty; and a page with exactly one [h1], two [h2],
    a [ul], a JSON-LD script, an author meta tag, a first paragraph of at
    most 50 words and at most 25 words per sentence on average gets the
    empty suggestion set. *)
Theorem suggestions_justified (content : pystr) (html : soup) :
  (forall category l,
      analyze_ai_search_factors content html !! category = Some l ->
      l <> [] /\ rule_fired category content html = true)
  /\ (tidy_page content html = true ->
      analyze_ai_search_factors content html = ∅).
Proof.
  split.
  - apply analyze_justified.
  - intros H. apply tidy_page_no_rule in H as (Hh & Hl & Hs & Ht & Hp & Hc).
    apply analyze_no_rule; assumption.
Qed.

Lemma suggestions_justified_witness :
  tidy_page tidy_content tidy_html = true
  /\ analyze_ai_search_factors tidy_content tidy_html = ∅.
Proof.
  split; [reflexivity|].
  apply (suggestions_justified tidy_content tidy_html). reflexivity.
Defined.

(** ** content_analyzer: the cache *)

Lemma Qltb_true (x y : Q) : Qltb x y = true <-> (x < y)%Q.
Proof.
  unfold Qltb. rewrite negb_true_iff, <- not_true_iff_false, Qle_bool_iff.
  split; [apply Qnot_le_lt | apply Qlt_not_le].
Qed.

Lemma Qltb_false (x y : Q) : Qltb x y = false <-> (y <= x)%Q.
Proof. unfold Qltb. rewrite negb_false_iff. apply Qle_bool_iff. Qed.

Lemma getlink_unlink (c : TTLCache) (key : pystr) :
  getlink (unlink c key) key = None.
Proof.
  unfold getlink, unlink. induction c as [|l c IH]; simpl; [reflexivity|].
  destruct (is_key key l) eqn:E; simpl; [exact IH|]. rewrite E. exact IH.
Qed.

Lemma getlink_app_None (c c' : TTLCache) (key : pystr) :
  getlink c key = None -> getlink (c ++ c') key = getlink c' key.
Proof.
  unfold getlink. induction c as [|l c IH]; simpl; [reflexivity|].
  destruct (is_key key l); [discriminate | exact IH].
Qed.

(** After a write the key holds the value written, with a fresh expiry. *)
Lemma getlink_setitem (c : TTLCache) (key : pystr) (value : FetchResult)
    (time : Q) :
  getlink (cache_setitem c key value time) key
  = Some {| link_key := key; link_value := value;
            link_expires := (time + ttl)%Q |}.
Proof.
  unfold cache_setitem. rewrite getlink_app_None by apply getlink_unlink.
  unfold getlink. simpl. unfold is_key. simpl.
  rewrite bool_decide_eq_true_2 by reflexivity. reflexivity.
Qed.

(** An entry that is absent or expired stays so as the timer advances. *)
Lemma cache_contains_later (c : TTLCache) (key : pystr) (t1 t2 : Q) :
  (t1 <= t2)%Q ->
  cache_contains c key t1 = false -> cache_contains c key t2 = false.
Proof.
  unfold cache_contains. intros Ht. destruct (getlink c key) as [link|]; [|auto].
  rewrite !Qltb_false. intros H. lra.
Qed.

Lemma getlink_key (c : TTLCache) (key : pystr) (link : CacheLink) :
  getlink c key = Some link -> link_key link = key.
Proof.
  unfold getlink. intros H. apply find_some in H as [_ H].
  unfold is_key in H. apply bool_decide_eq_true in H. exact H.
Qed.

Lemma length_filter_le {A : Type} (p : A -> bool) (l : list A) :
  (length (List.filter p l) <= length l)%nat.
Proof. induction l as [|x l IH]; simpl; [lia|]. destruct (p x); simpl; lia. Qed.

Lemma Forall_filter {A : Type} (P : A -> Prop) (p : A -> bool) (l : list A) :
  Forall P l -> Forall P (List.filter p l).
Proof.
  induction 1 as [|x l Hx Hl IH]; simpl; [constructor|].
  destruct (p x); [constructor|]; assumption.
Qed.

Lemma getlink_none (c : TTLCache) (key : pystr) :
  Forall (fun l => is_key key l = false) c -> getlink c key = None.
Proof.
  unfold getlink. induction 1 as [|l c Hl Hc IH]; simpl; [reflexivity|].
  rewrite Hl. exact IH.
Qed.

Lemma unlink_no_link (c : TTLCache) (key : pystr) :
  Forall (fun l => is_key key l = false) (unlink c key).
Proof.
  unfold unlink. apply Forall_forall. intros l Hl.
  apply list_elem_of_In, filter_In in Hl as [_ Hl]. apply negb_true_iff, Hl.
Qed.

(** ** content_analyzer: [fetch_content] *)

Lemma extract_outcome (text : soup) :
  if extraction_raises text
  then exists e, extract text = Raised e
  else exists r, extract text = Returned r.
Proof.
  unfold extraction_raises, extract, extract_meta_tags, tag_getitem, has_attr.
  destruct (find text is_description_meta) as [m|]; simpl.
  - destruct (tag_get m (py "content")); simpl; eexists; reflexivity.
  - eexists; reflexivity.
Qed.

Lemma fetch_try_outcome (w : FetchWorld) (url : pystr) :
  if fetch_fails w url
  then exists e, fetch_try w url = Raised e
  else exists r, fetch_try w url = Returned r.
Proof.
  unfold fetch_fails, fetch_try, raise_for_status.
  destruct (requests_get w url) as [e|status_code text].
  - exists e. reflexivity.
  - destruct ((400 <=? status_code)%Z && (status_code <? 600)%Z); simpl.
    + eexists; reflexivity.
    + apply extract_outcome.
Qed.

(** The call on a miss, by the outcome of the [try] block. *)
Lemma fetch_content_miss (w : FetchWorld) (c : TTLCache) (url : pystr) :
  cache_contains c url (t_contains w) = false ->
  fetch_content w c url
  = match fetch_try w url with
    | Returned result =>
        {| fetch_value := Returned (Some result);
           fetch_cache := cache_setitem c url result (t_setitem w);
           fetch_requests := [url] |}
    | Raised _ =>
        {| fetch_value := Returned None;
           fetch_cache := c;
           fetch_requests := [url] |}
    end.
Proof. intros H. unfold fetch_content. rewrite H. reflexivity. Qed.

(** The call on a hit, by the second reading of the timer. *)
Lemma fetch_content_hit (w : FetchWorld) (c : TTLCache) (url : pystr) :
  cache_contains c url (t_contains w) = true ->
  exists link,
    getlink c url = Some link
    /\ (t_contains w < link_expires link)%Q
    /\ fetch_requests (fetch_content w c url) = []
    /\ fetch_cache (fetch_content w c url) = unlink c url ++ [link]
    /\ fetch_value (fetch_content w c url)
       = (if Qltb (t_getitem w) (link_expires link)
          then Returned (Some (link_value link))
          else Raised (key_error url)).
Proof.
  intros H. unfold fetch_content. rewrite H.
  unfold cache_contains in H. unfold cache_getitem.
  destruct (getlink c url) as [link|]; [|discriminate].
  exists link. apply Qltb_true in H. split; [reflexivity|]. split; [exact H|].
  destruct (Qltb (t_getitem w) (link_expires link)); repeat split.
Qed.

(** A link that is read stays in the cache, at the end of the index. *)
Lemma getlink_touch (c : TTLCache) (key : pystr) (link : CacheLink) :
  getlink c key = Some link ->
  getlink (unlink c key ++ [link]) key = Some link.
Proof.
  intros H. rewrite getlink_app_None by apply getlink_unlink.
  apply getlink_key in H. unfold getlink. simpl. unfold is_key.
  rewrite bool_decide_eq_true_2 by exact H. reflexivity.
Qed.

(** After a call that returns a result, the cache holds it under the URL;
    on a miss the entry is fresh. *)
Lemma fetch_content_caches (w : FetchWorld) (c : TTLCache) (url : pystr)
    (r : FetchResult) :
  fetch_value (fetch_content w c url) = Returned (Some r) ->
  exists link,
    getlink (fetch_cache (fetch_content w c url)) url = Some link
    /\ link_value link = r
    /\ (length (fetch_requests (fetch_content w c url)) <= 1)%nat
    /\ (fetch_requests (fetch_content w c url) = [] \/
        link_expires link = (t_setitem w + ttl)%Q).
Proof.
  intros Hv. destruct (cache_contains c url (t_contains w)) eqn:Hc.
  - destruct (fetch_content_hit w c url Hc)
      as (link & Hl & _ & Hreq & Hcache & Hv').
    rewrite Hv' in Hv.
    destruct (Qltb (t_getitem w) (link_expires link)); [|discriminate].
    injection Hv as <-. exists link. rewrite Hcache, Hreq.
    split; [apply getlink_touch, Hl|]. split; [reflexivity|].
    split; [simpl; lia | left; reflexivity].
  - rewrite (fetch_content_miss w c url Hc) in *.
    destruct (fetch_try w url) as [r'|e]; simpl in *; [|discriminate].
    injection Hv as <-. eexists. split; [apply getlink_setitem|].
    split; [reflexivity|]. split; [lia | right; reflexivity].
Qed.

(** C8, as the code has it.  On a cache miss [fetch_content] issues one
    request, and it fails (returns [None]) if and only if the request
    raises, or the status is 4xx or 5xx, or the extraction raises; in every
    other case it returns the [FetchResult] extracted from the response and
    writes it to the cache. *)
Theorem fetch_content_miss_fails_iff (w : FetchWorld) (c : TTLCache)
    (url : pystr) :
  cache_contains c url (t_contains w) = false ->
  fetch_requests (fetch_content w c url) = [url]
  /\ (fetch_value (fetch_content w c url) = Returned None
      <-> fetch_fails w url = true)
  /\ (fetch_fails w url = false ->
      exists result,
        fetch_try w url = Returned result
        /\ fetch_value (fetch_content w c url) = Returned (Some result)
        /\ getlink (fetch_cache (fetch_content w c url)) url
           = Some {| link_key := url; link_value := result;
                     link_expires := (t_setitem w + ttl)%Q |}).
Proof.
  intros Hmiss. rewrite (fetch_content_miss w c url Hmiss).
  pose proof (fetch_try_outcome w url) as Ho.
  destruct (fetch_fails w url).
  - destruct Ho as [e ->]. simpl. repeat split; try reflexivity. discriminate.
  - destruct Ho as [r ->]. simpl. split; [reflexivity|]. split.
    + split; discriminate.
    + intros _. exists r. repeat split. apply getlink_setitem.
Qed.

Lemma fetch_content_miss_fails_iff_witness :
  cache_contains [] example_url 0 = false
  /\ fetch_requests
       (fetch_content (world_at 0 (HttpRaises connection_error)) [] example_url)
     = [example_url]
  /\ fetch_value
       (fetch_content (world_at 0 (HttpRaises connection_error)) [] example_url)
     = Returned None.
Proof.
  split; [reflexivity|].
  destruct (fetch_content_miss_fails_iff
              (world_at 0 (HttpRaises connection_error)) [] example_url
              eq_refl) as (Hreq & Hiff & _).
  split; [exact Hreq | apply Hiff; reflexivity].
Defined.

(** C8, both directions of the claim fail.  A response with status 300 is
    not 2xx and yet yields a [FetchResult]; a response with status 200 whose
    description meta tag has no [content] attribute yields [None]. *)
Lemma fetch_content_not_iff_2xx :
  (cache_contains [] example_url 0 = false
   /\ network_or_non_2xx (world_at 0 (HttpResponse 300 tidy_html)) example_url
      = true
   /\ exists result,
       fetch_value
         (fetch_content (world_at 0 (HttpResponse 300 tidy_html)) [] example_url)
       = Returned (Some result))
  /\ (network_or_non_2xx
        (world_at 0 (HttpResponse 200 bare_description_html)) example_url
      = false
      /\ fetch_value
           (fetch_content (world_at 0 (HttpResponse 200 bare_description_html))
              [] example_url)
         = Returned None).
Proof.
  split.
  - split; [reflexivity|]. split; [reflexivity|]. eexists. reflexivity.
  - split; reflexivity.
Qed.

(** A call that returns [None] was a miss whose [try] block raised. *)
Lemma fetch_content_None (w : FetchWorld) (c : TTLCache) (url : pystr) :
  fetch_value (fetch_content w c url) = Returned None ->
  cache_contains c url (t_contains w) = false
  /\ fetch_fails w url = true
  /\ fetch_cache (fetch_content w c url) = c
  /\ fetch_requests (fetch_content w c url) = [url].
Proof.
  intros H. destruct (cache_contains c url (t_contains w)) eqn:Hc.
  - destruct (fetch_content_hit w c url Hc) as (link & _ & _ & _ & _ & Hv).
    rewrite Hv in H. destruct (Qltb (t_getitem w) (link_expires link));
      discriminate.
  - split; [reflexivity|]. rewrite (fetch_content_miss w c url Hc) in *.
    pose proof (fetch_try_outcome w url) as Ho.
    destruct (fetch_fails w url).
    + destruct Ho as [e He]. rewrite He in *. repeat split.
    + destruct Ho as [r Hr]. rewrite Hr in H. discriminate.
Qed.

(** C10.  If [fetch_content] fails for a URL (the request raises, the
    status is 4xx or 5xx, or the extraction raises), the cache it leaves is
    the cache it found, entry for entry; and the next call for the same URL,
    at a later reading of the timer, issues a request to the network
    whatever the network then does. *)
Theorem fetch_content_failure_not_cached (w : FetchWorld) (c : TTLCache)
    (url : pystr) (w' : FetchWorld) :
  fetch_value (fetch_content w c url) = Returned None ->
  (t_contains w <= t_contains w')%Q ->
  fetch_fails w url = true
  /\ fetch_cache (fetch_content w c url) = c
  /\ fetch_requests
       (fetch_content w' (fetch_cache (fetch_content w c url)) url)
     = [url].
Proof.
  intros H Ht.
  destruct (fetch_content_None w c url H) as (Hc & Hf & Hcache & _).
  split; [exact Hf|]. split; [exact Hcache|]. rewrite Hcache.
  rewrite fetch_content_miss by (eapply cache_contains_later; eauto).
  destruct (fetch_try w' url); reflexivity.
Qed.

Lemma fetch_content_failure_not_cached_witness :
  fetch_cache
    (fetch_content (world_at 0 (HttpResponse 404 tidy_html)) [] example_url)
  = []
  /\ fetch_requests
       (fetch_content (world_at 5 (HttpResponse 200 tidy_html))
          (fetch_cache
             (fetch_content (world_at 0 (HttpResponse 404 tidy_html)) []
                example_url))
          example_url)
     = [example_url].
Proof.
  destruct (fetch_content_failure_not_cached
              (world_at 0 (HttpResponse 404 tidy_html)) [] example_url
              (world_at 5 (HttpResponse 200 tidy_html)))
    as (_ & Hc & Hr).
  - reflexivity.
  - unfold Qle. simpl. lia.
  - split; [exact Hc | exact Hr].
Defined.

(** *** An entry survives fewer than a hundred other calls *)

Lemma kept_getlink (link : CacheLink) (n : nat) (c : TTLCache) :
  kept_with link n c -> getlink c (link_key link) = Some link.
Proof.
  intros (pre & post & -> & Hpre & _).
  rewrite getlink_app_None by (apply getlink_none, Hpre).
  unfold getlink. simpl. unfold is_key.
  rewrite bool_decide_eq_true_2 by reflexivity. reflexivity.
Qed.

Lemma kept_mono (link : CacheLink) (n m : nat) (c : TTLCache) :
  (n <= m)%nat -> kept_with link n c -> kept_with link m c.
Proof.
  intros Hnm (pre & post & -> & Hpre & Hlen).
  exists pre, post. split; [reflexivity|]. split; [exact Hpre | lia].
Qed.

Lemma kept_filter (link : CacheLink) (n : nat) (c : TTLCache)
    (p : CacheLink -> bool) :
  p link = true -> kept_with link n c -> kept_with link n (List.filter p c).
Proof.
  intros Hp (pre & post & -> & Hpre & Hlen).
  exists (List.filter p pre), (List.filter p post).
  rewrite List.filter_app. cbn [List.filter]. rewrite Hp.
  split; [reflexivity|]. split; [apply Forall_filter, Hpre|].
  pose proof (length_filter_le p post). lia.
Qed.

Lemma kept_snoc (link l : CacheLink) (n : nat) (c : TTLCache) :
  kept_with link n c -> kept_with link (S n) (c ++ [l]).
Proof.
  intros (pre & post & -> & Hpre & Hlen). exists pre, (post ++ [l]).
  rewrite <- app_assoc. split; [reflexivity|]. split; [exact Hpre|].
  rewrite length_app. simpl. lia.
Qed.

(** The least recently used entry is not [link] when more than [n] entries
    are behind the first one. *)
Lemma kept_tl (link : CacheLink) (n : nat) (c : TTLCache) :
  (S n < length c)%nat -> kept_with link n c -> kept_with link n (tl c).
Proof.
  intros Hlen (pre & post & -> & Hpre & Hpost).
  destruct pre as [|a pre].
  - simpl in Hlen. lia.
  - exists pre, post. split; [reflexivity|]. split; [|exact Hpost].
    apply Forall_cons in Hpre. apply Hpre.
Qed.

Lemma kept_unlink (link : CacheLink) (n : nat) (c : TTLCache) (key : pystr) :
  key <> link_key link -> kept_with link n c -> kept_with link n (unlink c key).
Proof.
  intros Hk. unfold unlink. apply kept_filter. unfold is_key.
  rewrite bool_decide_eq_false_2; [reflexivity | congruence].
Qed.

Lemma kept_setitem (link : CacheLink) (n : nat) (c : TTLCache) (key : pystr)
    (value : FetchResult) (time : Q) :
  key <> link_key link -> (time < link_expires link)%Q ->
  (S n < maxsize)%nat ->
  kept_with link n c -> kept_with link (S n) (cache_setitem c key value time).
Proof.
  intros Hk Ht Hn H. unfold cache_setitem.
  assert (H1 : kept_with link n (expire c time)).
  { unfold expire. apply kept_filter; [apply Qltb_true, Ht | exact H]. }
  apply kept_snoc, kept_unlink; [exact Hk|].
  destruct (getlink (expire c time) key); [exact H1|].
  destruct (Nat.leb_spec maxsize (length (expire c time))); [|exact H1].
  apply kept_tl; [lia | exact H1].
Qed.

Lemma kept_getitem (link : CacheLink) (n : nat) (c : TTLCache) (key : pystr)
    (now : Q) :
  key <> link_key link -> kept_with link n c ->
  kept_with link (S n) (snd (cache_getitem c key now)).
Proof.
  intros Hk H. unfold cache_getitem. destruct (getlink c key) as [l|].
  - destruct (Qltb now (link_expires l)); simpl;
      apply kept_snoc, kept_unlink; assumption.
  - simpl. apply (kept_mono link n); [lia | exact H].
Qed.

Lemma kept_fetch (link : CacheLink) (n : nat) (w : FetchWorld) (c : TTLCache)
    (url' : pystr) :
  other_call (link_key link) (link_expires link) (w, url') ->
  (S n < maxsize)%nat -> kept_with link n c ->
  kept_with link (S n) (fetch_cache (fetch_content w c url')).
Proof.
  intros [Hk Ht] Hn H. simpl in Hk, Ht. unfold fetch_content.
  destruct (cache_contains c url' (t_contains w)).
  - pose proof (kept_getitem link n c url' (t_getitem w) Hk H) as H'.
    destruct (cache_getitem c url' (t_getitem w)) as [v c']. exact H'.
  - destruct (fetch_try w url'); simpl.
    + apply kept_setitem; assumption.
    + apply (kept_mono link n); [lia | exact H].
Qed.

Lemma kept_fetch_many (link : CacheLink) (calls : list (FetchWorld * pystr)) :
  forall (n : nat) (c : TTLCache),
    Forall (other_call (link_key link) (link_expires link)) calls ->
    (n + length calls < maxsize)%nat -> kept_with link n c ->
    kept_with link (n + length calls) (fetch_many calls c).
Proof.
  induction calls as [|[w url'] calls IH]; intros n c Hall Hlen H.
  - simpl. rewrite Nat.add_0_r. exact H.
  - apply Forall_cons in Hall as [Hcall Hall]. simpl length in *.
    change (fetch_many ((w, url') :: calls) c)
      with (fetch_many calls (fetch_cache (fetch_content w c url'))).
    replace (n + S (length calls))%nat with (S n + length calls)%nat by lia.
    apply IH; [exact Hall | lia |].
    apply kept_fetch; [exact Hcall | lia | exact H].
Qed.

(** After a call that returns a result, the entry of the URL holds it and
    is the most recently used one; on a miss it is fresh. *)
Lemma fetch_content_keeps_last (w : FetchWorld) (c : TTLCache) (url : pystr)
    (r : FetchResult) :
  fetch_value (fetch_content w c url) = Returned (Some r) ->
  exists link,
    kept_with link 0 (fetch_cache (fetch_content w c url))
    /\ link_key link = url
    /\ link_value link = r
    /\ (length (fetch_requests (fetch_content w c url)) <= 1)%nat
    /\ (cache_contains c url (t_contains w) = false ->
        link_expires link = (t_setitem w + ttl)%Q).
Proof.
  intros Hv. destruct (cache_contains c url (t_contains w)) eqn:Hc.
  - destruct (fetch_content_hit w c url Hc)
      as (link & Hl & _ & Hreq & Hcache & Hv').
    rewrite Hv' in Hv.
    destruct (Qltb (t_getitem w) (link_expires link)); [|discriminate].
    injection Hv as <-. exists link. rewrite Hcache, Hreq.
    pose proof (getlink_key c url link Hl) as Hkey.
    split; [|split; [exact Hkey|split; [reflexivity|split;
                                         [simpl; lia | discriminate]]]].
    exists (unlink c url), []. split; [reflexivity|].
    split; [rewrite Hkey; apply unlink_no_link | simpl; lia].
  - rewrite (fetch_content_miss w c url Hc) in *.
    destruct (fetch_try w url) as [r'|e]; simpl in *; [|discriminate].
    injection Hv as <-.
    exists {| link_key := url; link_value := r';
              link_expires := (t_setitem w + ttl)%Q |}.
    split; [|split; [reflexivity|split; [reflexivity|split;
                                          [lia | reflexivity]]]].
    unfold cache_setitem. eexists _, []. split; [reflexivity|].
    split; [apply unlink_no_link | simpl; lia].
Qed.

(** C7, as the code has it.
    (1) After a call that returns a [FetchResult], fetched or cached, the
    cache holds it under the URL, with an expiry a full TTL after the write
    when it was fetched.  A later call for the URL, with both readings of
    the timer before that expiry and after fewer than a hundred calls for
    other URLs, none of which writes at or after the expiry, returns the
    same [FetchResult] without a request, and the two calls together issue
    at most one request.
    (2) A call made when the entry of the URL has expired issues a request,
    and if that fetch succeeds the cache holds the new result with a fresh
    expiry.
    (3) A result served from the cache comes from an entry that has not
    reached its expiry at either reading of the timer: its age is below the
    TTL. *)
Theorem ttl_cache_behaviour :
  (forall (w : FetchWorld) (c : TTLCache) (url : pystr) (r : FetchResult),
      let run := fetch_content w c url in
      fetch_value run = Returned (Some r) ->
      exists link,
        getlink (fetch_cache run) url = Some link
        /\ link_value link = r
        /\ (cache_contains c url (t_contains w) = false ->
            link_expires link = (t_setitem w + ttl)%Q)
        /\ forall (calls : list (FetchWorld * pystr)) (w' : FetchWorld),
             (length calls < maxsize)%nat ->
             Forall (other_call url (link_expires link)) calls ->
             (t_contains w' < link_expires link)%Q ->
             (t_getitem w' < link_expires link)%Q ->
             let run' :=
               fetch_content w' (fetch_many calls (fetch_cache run)) url in
             fetch_value run' = Returned (Some r)
             /\ fetch_requests run' = []
             /\ (length (fetch_requests run ++ fetch_requests run') <= 1)%nat)
  /\ (forall (w : FetchWorld) (c : TTLCache) (url : pystr) (link : CacheLink),
        getlink c url = Some link ->
        (link_expires link <= t_contains w)%Q ->
        let run := fetch_content w c url in
        fetch_requests run = [url]
        /\ forall r, fetch_try w url = Returned r ->
                     fetch_value run = Returned (Some r)
                     /\ getlink (fetch_cache run) url
                        = Some {| link_key := url; link_value := r;
                                  link_expires := (t_setitem w + ttl)%Q |})
  /\ (forall (w : FetchWorld) (c : TTLCache) (url : pystr) (r : FetchResult),
        let run := fetch_content w c url in
        fetch_value run = Returned (Some r) ->
        fetch_requests run = [] ->
        exists link,
          getlink c url = Some link /\ link_value link = r
          /\ (t_contains w < link_expires link)%Q
          /\ (t_getitem w < link_expires link)%Q
          /\ (t_getitem w - (link_expires link - ttl) < ttl)%Q).
Proof.
  split; [|split].
  - intros w c url r run Hv. subst run.
    destruct (fetch_content_keeps_last w c url r Hv)
      as (link & Hkept & Hkey & Hval & Hlen & Hexp).
    pose proof (kept_getlink link 0 _ Hkept) as Hg0. rewrite Hkey in Hg0.
    exists link. split; [exact Hg0|].
    split; [exact Hval|]. split; [exact Hexp|].
    intros calls w' Hn Hall Hc Hg run'. subst run'.
    rewrite <- Hkey in Hall.
    pose proof (kept_fetch_many link calls 0 _ Hall Hn Hkept) as Hk.
    apply kept_getlink in Hk. rewrite Hkey in Hk.
    set (c' := fetch_many calls (fetch_cache (fetch_content w c url))) in *.
    assert (Hhit : cache_contains c' url (t_contains w') = true).
    { unfold cache_contains. rewrite Hk. apply Qltb_true, Hc. }
    destruct (fetch_content_hit w' c' url Hhit)
      as (link' & Hl' & _ & Hreq & _ & Hv').
    rewrite Hk in Hl'. injection Hl' as <-.
    apply Qltb_true in Hg. rewrite Hg, Hval in Hv'.
    rewrite Hv', Hreq, app_nil_r. repeat split. exact Hlen.
  - intros w c url link Hl Hexp run. subst run.
    assert (Hmiss : cache_contains c url (t_contains w) = false).
    { unfold cache_contains. rewrite Hl. apply Qltb_false, Hexp. }
    rewrite (fetch_content_miss w c url Hmiss). split.
    + destruct (fetch_try w url); reflexivity.
    + intros r ->. simpl. split; [reflexivity | apply getlink_setitem].
  - intros w c url r run Hv Hreq. subst run.
    destruct (cache_contains c url (t_contains w)) eqn:Hc.
    + destruct (fetch_content_hit w c url Hc)
        as (link & Hl & Ht & _ & _ & Hv').
      rewrite Hv' in Hv.
      destruct (Qltb (t_getitem w) (link_expires link)) eqn:Hg;
        [|discriminate].
      apply Qltb_true in Hg. injection Hv as <-.
      exists link. repeat split; try assumption. lra.
    + rewrite (fetch_content_miss w c url Hc) in Hreq.
      destruct (fetch_try w url); discriminate.
Qed.

Lemma ttl_cache_behaviour_witness :
  let w := world_at 0 (HttpResponse 200 tidy_html) in
  let calls := [(world_at 5 (HttpResponse 200 tidy_html), other_url)] in
  let w' := world_at 10 (HttpRaises connection_error) in
  let run := fetch_content w [] example_url in
  let run' :=
    fetch_content w' (fetch_many calls (fetch_cache run)) example_url in
  exists r,
    fetch_value run = Returned (Some r)
    /\ fetch_value run' = Returned (Some r)
    /\ fetch_requests run' = []
    /\ (length (fetch_requests run ++ fetch_requests run') <= 1)%nat.
Proof.
  intros w calls w' run run'.
  destruct ttl_cache_behaviour as (H & _ & _).
  destruct (extract_outcome tidy_html) as [r Hr].
  assert (Hv : fetch_value run = Returned (Some r)).
  { subst run. rewrite fetch_content_miss by reflexivity.
    change (fetch_try w example_url) with (extract tidy_html).
    rewrite Hr. reflexivity. }
  exists r. split; [exact Hv|].
  destruct (H w [] example_url r Hv) as (link & _ & _ & Hexp & Hnext).
  assert (He : link_expires link = (0 + ttl)%Q) by (apply Hexp; reflexivity).
  apply (Hnext calls w').
  - simpl. unfold maxsize. lia.
  - constructor; [|constructor]. split.
    + intros E. vm_compute in E. discriminate E.
    + rewrite He. unfold Qlt. simpl. lia.
  - rewrite He. unfold Qlt. simpl. lia.
  - rewrite He. unfold Qlt. simpl. lia.
Defined.

(** C7, as the claim has it, fails: two calls for a URL within the TTL
    window issue two requests when the entry was evicted in between.  The
    first call, at time 0, fetches the page and caches it; a hundred other
    pages are fetched at time 1, and the cache, which holds a hundred
    entries, drops the least recently used one; the second call, at time 2,
    goes to the network again. *)
Lemma entry_evicted_within_ttl :
  let run :=
    fetch_content (world_at 0 (HttpResponse 200 tidy_html)) [] example_url in
  let c := fetch_many hundred_pages (fetch_cache run) in
  let run' :=
    fetch_content (world_at 2 (HttpResponse 200 tidy_html)) c example_url in
  (exists r, fetch_value run = Returned (Some r))
  /\ length hundred_pages = 100%nat
  /\ (2 - 0 < ttl)%Q
  /\ getlink c example_url = None
  /\ fetch_requests run ++ fetch_requests run' = [example_url; example_url]
  /\ ~ (length (fetch_requests run ++ fetch_requests run') <= 1)%nat.
Proof.
  intros run c run'.
  split; [eexists; vm_compute; reflexivity|].
  split; [reflexivity|]. split; [reflexivity|].
  split; [vm_compute; reflexivity|].
  split; [vm_compute; reflexivity|].
  vm_compute. lia.
Qed.

(** A failed fetch leaves nothing to serve: the call that follows it, one
    second later, goes to the network again. *)
Remark two_calls_two_requests :
  let run :=
    fetch_content (world_at 0 (HttpRaises connection_error)) [] example_url in
  let run' :=
    fetch_content (world_at 1 (HttpResponse 200 tidy_html)) (fetch_cache run)
      example_url in
  (1 - 0 < ttl)%Q
  /\ fetch_requests run ++ fetch_requests run' = [example_url; example_url]
  /\ ~ (length (fetch_requests run ++ fetch_requests run') <= 1)%nat.
Proof.
  intros run run'. split; [reflexivity|]. split; [reflexivity|].
  vm_compute. lia.
Qed.

(** ** seo_analyzer *)

Lemma msg_fetch_failed_nonempty : msg_fetch_failed <> [].
Proof. discriminate. Qed.

(** With the stages of the package, a failed fetch on a cache miss is a
    [fetch_content] that returns [None]. *)
Lemma package_fetch_failure (w : World) (url : pystr) :
  cache_contains (w_cache w) url (t_contains (w_fetch w)) = false ->
  fetch_fails (w_fetch w) url = true ->
  st_fetch_content (package_stages w) url = Returned None.
Proof.
  intros Hmiss Hf. simpl. rewrite (fetch_content_miss _ _ _ Hmiss).
  pose proof (fetch_try_outcome (w_fetch w) url) as Ho. rewrite Hf in Ho.
  destruct Ho as [e ->]. reflexivity.
Qed.

(** C1.  For every URL and whatever the other stages would do, if
    [fetch_content] fails (it returns [None], as it does on a network
    failure or an HTTP error status), [analyze_url] returns the report with
    exactly the keys [url], the URL given, and [error], a string that is not
    empty; no other key is present, and the only stage called is the
    fetch. *)
Theorem analyze_url_fetch_failure (st : Stages) (url : pystr) :
  st_fetch_content st url = Returned None ->
  run_report (analyze_url st url)
  = <["error" := RStr msg_fetch_failed]> {[ "url" := RStr url ]}
  /\ dom (run_report (analyze_url st url))
     = ({[ "url"; "error" ]} : gset string)
  /\ run_report (analyze_url st url) !! "url" = Some (RStr url)
  /\ msg_fetch_failed <> []
  /\ run_calls (analyze_url st url) = [Fetch].
Proof.
  intros H.
  assert (E : analyze_url st url
              = {| run_report :=
                     <["error" := RStr msg_fetch_failed]>
                       {[ "url" := RStr url ]};
                   run_calls := [Fetch] |}).
  { unfold analyze_url, analyze_try, call, mbind, M_bind. simpl.
    rewrite H. reflexivity. }
  rewrite E. simpl. split; [reflexivity|]. split.
  - rewrite dom_insert_L, dom_singleton_L. set_solver.
  - split; [reflexivity|]. split; [apply msg_fetch_failed_nonempty | reflexivity].
Qed.

Lemma analyze_url_fetch_failure_witness :
  fetch_fails (world_at 0 (HttpRaises connection_error)) example_url = true
  /\ run_report
       (analyze_url (package_stages (quiet_world (HttpRaises connection_error)))
          example_url)
     = <["error" := RStr msg_fetch_failed]> {[ "url" := RStr example_url ]}
  /\ run_calls
       (analyze_url (package_stages (quiet_world (HttpRaises connection_error)))
          example_url)
     = [Fetch].
Proof.
  split; [reflexivity|].
  destruct (analyze_url_fetch_failure
              (package_stages (quiet_world (HttpRaises connection_error)))
              example_url eq_refl) as (Hr & _ & _ & _ & Hc).
  split; [exact Hr | exact Hc].
Defined.

Ltac run_analyze :=
  unfold analyze_url, analyze_try, call, assign, mbind, M_bind; simpl.

(** C2.  For every URL whose fetch succeeds with the data [cd]: if a later
    stage raises [exc], no stage after it is called, and the report holds
    [url], the fields of the stages that returned before it, with the values
    they returned, and [error], the string ["Unexpected error: "] followed
    by [str(exc)]; it holds nothing else. *)
Theorem analyze_url_stage_failure (st : Stages) (url : pystr)
    (cd : FetchResult) :
  st_fetch_content st url = Returned (Some cd) ->
  let keywords := st_extract_keywords st (content cd) in
  let readability := st_compute_readability st (content cd) in
  let performance := st_analyze_performance st url in
  let suggestions :=
    st_analyze_ai_search_factors st (content cd) (full_html cd) in
  (forall exc,
      keywords = Raised exc ->
      analyze_url st url
      = {| run_report :=
             <["error" := unexpected exc]> {[ "url" := RStr url ]};
           run_calls := [Fetch; Keywords] |})
  /\ (forall kw exc,
        keywords = Returned kw -> readability = Raised exc ->
        analyze_url st url
        = {| run_report :=
               <["error" := unexpected exc]>
               (<["keyword_analysis" := RKeywords kw]>
                  {[ "url" := RStr url ]});
             run_calls := [Fetch; Keywords; Readability] |})
  /\ (forall kw rd exc,
        keywords = Returned kw -> readability = Returned rd ->
        performance = Raised exc ->
        analyze_url st url
        = {| run_report :=
               <["error" := unexpected exc]>
               (<["readability" := RReadability rd]>
               (<["keyword_analysis" := RKeywords kw]>
                  {[ "url" := RStr url ]}));
             run_calls := [Fetch; Keywords; Readability; Performance] |})
  /\ (forall kw rd pf exc,
        keywords = Returned kw -> readability = Returned rd ->
        performance = Returned pf -> suggestions = Raised exc ->
        analyze_url st url
        = {| run_report :=
               <["error" := unexpected exc]>
               (<["performance" := RPerformance pf]>
               (<["readability" := RReadability rd]>
               (<["keyword_analysis" := RKeywords kw]>
                  {[ "url" := RStr url ]})));
             run_calls :=
               [Fetch; Keywords; Readability; Performance; AiSearch] |}).
Proof.
  intros H keywords readability performance suggestions.
  subst keywords readability performance suggestions.
  split; [|split; [|split]].
  - intros exc Hk. run_analyze. rewrite H, Hk. reflexivity.
  - intros kw exc Hk Hr. run_analyze. rewrite H, Hk, Hr. reflexivity.
  - intros kw rd exc Hk Hr Hp. run_analyze. rewrite H, Hk, Hr, Hp. reflexivity.
  - intros kw rd pf exc Hk Hr Hp Ha. run_analyze.
    rewrite H, Hk, Hr, Hp, Ha. reflexivity.
Qed.

Lemma analyze_url_stage_failure_witness :
  let st := faulty_stages (quiet_world (HttpResponse 200 tidy_html)) in
  exists cd,
    st_fetch_content st example_url = Returned (Some cd)
    /\ run_calls (analyze_url st example_url)
       = [Fetch; Keywords; Readability; Performance; AiSearch]
    /\ dom (run_report (analyze_url st example_url))
       = ({[ "url"; "keyword_analysis"; "readability"; "performance"; "error" ]}
          : gset string)
    /\ run_report (analyze_url st example_url) !! "error"
       = Some (unexpected recursion_error).
Proof.
  intros st.
  assert (Hf : exists cd, st_fetch_content st example_url = Returned (Some cd))
    by (eexists; reflexivity).
  destruct Hf as [cd Hf]. exists cd. split; [exact Hf|].
  assert (Hk : exists kw, st_extract_keywords st (content cd) = Returned kw)
    by (eexists; reflexivity).
  destruct Hk as [kw Hk].
  destruct (compute_readability None (content cd)) as [rd|e] eqn:Hr.
  - assert (Hp : exists pf, st_analyze_performance st example_url = Returned pf)
      by (eexists; reflexivity).
    destruct Hp as [pf Hp].
    destruct (analyze_url_stage_failure st example_url cd Hf) as (_ & _ & _ & H).
    rewrite (H kw rd pf recursion_error Hk Hr Hp eq_refl). simpl.
    split; [reflexivity|]. split; [|reflexivity].
    rewrite !dom_insert_L, dom_singleton_L. set_solver.
  - exfalso. unfold compute_readability in Hr.
    destruct (readability_score_returns None (content cd)) as [s Hs].
    rewrite Hs in Hr. discriminate.
Defined.


(* ===================================================================== *)
(** * Further properties *)
(* ===================================================================== *)

(** ** keyword_utils: counts *)

Lemma occurrences_snoc (k w : pystr) (ws : list pystr) :
  occurrences k (ws ++ [w])
  = (occurrences k ws + if decide (w = k) then 1 else 0)%nat.
Proof.
  unfold occurrences. rewrite List.filter_app, length_app. simpl.
  destruct (decide (w = k)) as [->|Hne].
  - rewrite bool_decide_eq_true_2 by reflexivity. reflexivity.
  - rewrite bool_decide_eq_false_2 by exact Hne. reflexivity.
Qed.

Lemma counter_get_add (w k : pystr) (c : list (pystr * nat)) :
  counter_get (counter_add w c) k
  = (counter_get c k + if decide (w = k) then 1 else 0)%nat.
Proof.
  unfold counter_get. induction c as [|[k' n] c IH]; simpl.
  - destruct (decide (w = k)) as [->|Hne].
    + rewrite bool_decide_eq_true_2 by reflexivity. reflexivity.
    + rewrite bool_decide_eq_false_2 by exact Hne. reflexivity.
  - destruct (decide (k' = w)) as [->|Hne]; simpl.
    + destruct (decide (w = k)) as [->|Hne'].
      * rewrite !bool_decide_eq_true_2 by reflexivity. simpl. lia.
      * rewrite !bool_decide_eq_false_2 by exact Hne'. lia.
    + destruct (bool_decide (k' = k)) eqn:E; simpl.
      * apply bool_decide_eq_true in E. subst k'.
        destruct (decide (w = k)); [congruence | lia].
      * exact IH.
Qed.

(** The counter holds, for every word, the number of its occurrences. *)
Lemma counter_get_Counter (ws : list pystr) (k : pystr) :
  counter_get (Counter ws) k = occurrences k ws.
Proof.
  induction ws as [|w ws IH] using rev_ind; [reflexivity|].
  rewrite Counter_snoc, counter_get_add, occurrences_snoc, IH. reflexivity.
Qed.

Lemma keys_Counter_NoDup (ws : list pystr) : NoDup (keys (Counter ws)).
Proof.
  induction ws as [|w ws IH] using rev_ind; [constructor|].
  rewrite Counter_snoc, keys_counter_add.
  destruct (decide (w ∈ keys (Counter ws))) as [Hin|Hout]; [exact IH|].
  apply NoDup_app. split; [exact IH|]. split.
  - intros x Hx Hw. apply list_elem_of_singleton in Hw as ->. contradiction.
  - apply NoDup_singleton.
Qed.

Lemma counter_get_elem (c : list (pystr * nat)) (k : pystr) (n : nat) :
  NoDup (keys c) -> (k, n) ∈ c -> counter_get c k = n.
Proof.
  unfold counter_get. induction c as [|[k' n'] c IH]; simpl; intros Hnd Hin.
  - inversion Hin.
  - apply NoDup_cons in Hnd as [Hk' Hnd].
    apply elem_of_cons in Hin as [Heq|Hin].
    + injection Heq as <- <-.
      rewrite bool_decide_eq_true_2 by reflexivity. reflexivity.
    + destruct (bool_decide (k' = k)) eqn:E; [|apply IH; assumption].
      apply bool_decide_eq_true in E. subst k'. exfalso. apply Hk'.
      unfold keys. apply list_elem_of_fmap. exists (k, n). split; [reflexivity | exact Hin].
Qed.

Lemma occurrences_filter (P : pystr -> bool) (k : pystr) (ws : list pystr) :
  P k = true -> occurrences k (List.filter P ws) = occurrences k ws.
Proof.
  intros Hk. unfold occurrences. induction ws as [|w ws IH]; simpl; [reflexivity|].
  destruct (P w) eqn:Hw; simpl.
  - destruct (bool_decide (w = k)); simpl; rewrite IH; reflexivity.
  - destruct (bool_decide (w = k)) eqn:E; [|exact IH].
    apply bool_decide_eq_true in E. congruence.
Qed.

Lemma occurrences_elem (k : pystr) (ws : list pystr) :
  k ∈ ws -> (0 < occurrences k ws)%nat.
Proof.
  unfold occurrences. induction ws as [|w ws IH]; intros H; [inversion H|].
  simpl. destruct (bool_decide (w = k)) eqn:E; simpl; [lia|].
  apply bool_decide_eq_false in E.
  apply elem_of_cons in H as [->|H]; [congruence | apply IH, H].
Qed.

Lemma elem_of_firstn {A : Type} (n : nat) (l : list A) (x : A) :
  x ∈ firstn n l -> x ∈ l.
Proof.
  intros H. rewrite <- (firstn_skipn n l). apply elem_of_app. left. exact H.
Qed.

(** X1.  The count of every record returned is the number of times its
    keyword occurs among the lower-cased tokens of the text, and it is
    positive. *)
Theorem extract_keywords_counts (text : pystr) (top_n : Z) :
  Forall (fun r => count r = occurrences (keyword r) (tokens text)
                   /\ (0 < count r)%nat)
         (extract_keywords text top_n).
Proof.
  rewrite extract_keywords_unfold. apply Forall_forall. intros r Hr.
  apply list_elem_of_fmap in Hr as ([k n] & -> & Hkn). simpl.
  apply elem_of_firstn in Hkn.
  pose proof (counted_kept text _ Hkn) as Hkeep. simpl in Hkeep.
  rewrite sorted_desc_elem in Hkn.
  pose proof (counter_get_elem _ k n (keys_Counter_NoDup _) Hkn) as Hget.
  rewrite counter_get_Counter, (occurrences_filter _ _ _ Hkeep) in Hget.
  split; [symmetry; exact Hget|]. rewrite <- Hget. apply occurrences_elem.
  assert (Hk : k ∈ keys (Counter (List.filter keep_word (tokens text)))).
  { unfold keys. apply list_elem_of_fmap. exists (k, n). split; [reflexivity | exact Hkn]. }
  rewrite keys_Counter_elem, list_elem_of_In, filter_In in Hk.
  apply list_elem_of_In, Hk.
Qed.


(** ** keyword_utils: the records as a whole *)

Lemma insert_desc_perm (x : pystr * nat) (l : list (pystr * nat)) :
  insert_desc x l ≡ₚ x :: l.
Proof.
  induction l as [|y l IH]; simpl; [reflexivity|].
  destruct (snd y <? snd x)%nat; [reflexivity|].
  rewrite IH. apply Permutation_swap.
Qed.

Lemma sorted_desc_perm (l : list (pystr * nat)) : sorted_desc l ≡ₚ l.
Proof.
  induction l as [|x l IH] using rev_ind; [reflexivity|].
  rewrite sorted_desc_snoc, insert_desc_perm, IH.
  apply Permutation_cons_append.
Qed.

Lemma keywords_of_records (l : list (pystr * nat)) :
  map keyword (map to_record l) = keys l.
Proof. unfold keys. rewrite map_map. reflexivity. Qed.

Lemma NoDup_firstn {A : Type} (n : nat) (l : list A) :
  NoDup l -> NoDup (firstn n l).
Proof.
  intros H. rewrite <- (firstn_skipn n l) in H.
  apply NoDup_app in H. apply H.
Qed.

Lemma keys_sorted_NoDup (ws : list pystr) :
  NoDup (keys (sorted_desc (Counter ws))).
Proof.
  unfold keys. rewrite sorted_desc_perm. apply keys_Counter_NoDup.
Qed.

(** X2.  No keyword is returned twice. *)
Theorem extract_keywords_distinct (text : pystr) (top_n : Z) :
  NoDup (map keyword (extract_keywords text top_n)).
Proof.
  rewrite extract_keywords_unfold, keywords_of_records.
  unfold keys. rewrite <- firstn_map. apply NoDup_firstn, keys_sorted_NoDup.
Qed.

(** X3.  A token that passes the filter is among the keywords returned,
    unless the result was cut at [top_n] records. *)
Theorem extract_keywords_complete (text : pystr) (top_n : Z) (w : pystr) :
  w ∈ tokens text -> keep_word w = true ->
  w ∈ map keyword (extract_keywords text top_n)
  \/ length (extract_keywords text top_n) = Z.to_nat top_n.
Proof.
  intros Hw Hk. rewrite extract_keywords_unfold, keywords_of_records.
  rewrite length_map, length_firstn.
  set (items := sorted_desc (Counter (List.filter keep_word (tokens text)))).
  destruct (Nat.le_gt_cases (Z.to_nat top_n) (length items)) as [Hle|Hgt].
  - right. lia.
  - left. rewrite firstn_all2 by lia. subst items.
    unfold keys. rewrite sorted_desc_perm. apply keys_Counter_elem.
    apply list_elem_of_In, filter_In. split; [apply list_elem_of_In, Hw | exact Hk].
Qed.

Lemma extract_keywords_complete_witness :
  py "cat" ∈ map keyword (extract_keywords (py "The cat and the dog") 15)
  \/ length (extract_keywords (py "The cat and the dog") 15) = Z.to_nat 15.
Proof.
  apply (extract_keywords_complete (py "The cat and the dog") 15 (py "cat")).
  - vm_compute. apply list_elem_of_In. simpl. tauto.
  - reflexivity.
Defined.

(** X4.  Asking for fewer keywords gives the first records of the longer
    answer: the ranking does not depend on [top_n]. *)
Theorem extract_keywords_prefix (text : pystr) (n m : Z) :
  (n <= m)%Z ->
  extract_keywords text n = firstn (Z.to_nat n) (extract_keywords text m).
Proof.
  intros Hnm. rewrite !extract_keywords_unfold, <- firstn_map.
  rewrite <- firstn_map, firstn_firstn. f_equal. lia.
Qed.

Lemma extract_keywords_prefix_witness :
  extract_keywords (py "dog emu cat emu dog cat bee") 1
  = firstn (Z.to_nat 1) (extract_keywords (py "dog emu cat emu dog cat bee") 3).
Proof.
  apply (extract_keywords_prefix (py "dog emu cat emu dog cat bee") 1 3). lia.
Defined.


(** ** keyword_utils: the shape of a keyword *)

Lemma token_shape_snoc (l : pystr) (c : pychar) :
  token_shape 0 l = true -> is_word_char c = true ->
  token_shape 0 (l ++ [c]) = true.
Proof.
  destruct l as [|a s]; [discriminate|].
  rewrite <- app_comm_cons. unfold token_shape.
  rewrite !andb_true_iff, forallb_app, !andb_true_iff.
  intros [[Ha Hs] _] Hc. repeat split; try assumption.
  simpl. rewrite Hc. reflexivity.
Qed.

Lemma word_re_emit_shape (cur : pystr) :
  token_shape 0 (rev cur) = true ->
  Forall (fun t => token_shape 1 t = true) (word_re_emit cur).
Proof.
  intros H. destruct cur as [|a [|b cur]]; [constructor | constructor |].
  unfold word_re_emit. apply Forall_cons. split; [|constructor].
  assert (Hlen : (2 <= length (rev (a :: b :: cur)))%nat)
    by (rewrite length_rev; simpl; lia).
  destruct (rev (a :: b :: cur)) as [|c s]; [discriminate|].
  simpl in *. rewrite !andb_true_iff in *. destruct H as [[Hc Hs] _].
  repeat split; [exact Hc | exact Hs |].
  destruct (length s); [lia | reflexivity].
Qed.

(** Every match of [WORD_RE] is a letter followed by at least one character
    of the class. *)
Lemma word_re_from_shape (text cur : pystr) :
  cur = [] \/ token_shape 0 (rev cur) = true ->
  Forall (fun t => token_shape 1 t = true) (word_re_from text cur).
Proof.
  revert cur. induction text as [|c text IH]; intros cur Hcur; simpl.
  - destruct Hcur as [->|H]; [constructor | apply word_re_emit_shape, H].
  - destruct cur as [|x cur].
    + destruct (is_alpha c) eqn:Hc; apply IH; [right|left; reflexivity].
      simpl. rewrite Hc. reflexivity.
    + destruct Hcur as [Hnil|H]; [discriminate|].
      destruct (is_word_char c) eqn:Hc.
      * apply IH. right. change (rev (c :: x :: cur)) with (rev (x :: cur) ++ [c]).
        apply token_shape_snoc; assumption.
      * apply Forall_app. split; [apply word_re_emit_shape, H|].
        apply IH. left. reflexivity.
Qed.

(** On a character of the class of [WORD_RE], [str.lower] gives one
    character: a lower-case letter for a letter, else the character. *)
Lemma lower_char_word (c : pychar) :
  is_word_char c = true ->
  exists c',
    lower_char c = [c']
    /\ is_keyword_char c' = true
    /\ (is_alpha c = true -> is_lower c' = true).
Proof.
  intros H. unfold lower_char. destruct (is_upper c) eqn:Hu.
  - exists (c + 32)%N. split; [reflexivity|].
    assert (Hl : is_lower (c + 32)%N = true).
    { unfold is_upper, is_lower, in_range in *.
      rewrite andb_true_iff, !N.leb_le in *. lia. }
    split; [|intros _; exact Hl].
    unfold is_keyword_char. rewrite Hl. reflexivity.
  - assert (Hc : is_keyword_char c = true).
    { unfold is_word_char, is_alpha in H. rewrite Hu in H. exact H. }
    assert (H304 : (c =? 304)%N = false).
    { apply N.eqb_neq. intros ->. discriminate Hc. }
    assert (H8490 : (c =? 8490)%N = false).
    { apply N.eqb_neq. intros ->. discriminate Hc. }
    rewrite H304, H8490. exists c. split; [reflexivity|].
    split; [exact Hc|]. unfold is_alpha. rewrite Hu. intros Hl. exact Hl.
Qed.

Lemma lower_keyword_chars (s : pystr) :
  forallb is_word_char s = true -> forallb is_keyword_char (lower s) = true.
Proof.
  induction s as [|c s IH]; [reflexivity|].
  cbn [forallb]. rewrite andb_true_iff. intros [Hc Hs].
  destruct (lower_char_word c Hc) as (c' & E & Hk & _).
  change (lower (c :: s)) with (lower_char c ++ lower s).
  rewrite E. cbn [app forallb]. rewrite Hk, (IH Hs). reflexivity.
Qed.

Lemma lower_keyword_shape (t : pystr) :
  token_shape 1 t = true -> (2 < length (lower t))%nat ->
  keyword_shape (lower t) = true.
Proof.
  destruct t as [|c s]; [discriminate|].
  unfold token_shape. rewrite !andb_true_iff. intros [[Hc Hs] _].
  assert (Hw : is_word_char c = true).
  { unfold is_word_char. rewrite Hc. reflexivity. }
  destruct (lower_char_word c Hw) as (c' & E & _ & Hl).
  change (lower (c :: s)) with (lower_char c ++ lower s).
  rewrite E. cbn [app]. intros Hlen. unfold keyword_shape.
  rewrite (Hl Hc), (lower_keyword_chars s Hs). cbn [andb].
  apply Nat.leb_le. cbn [length] in Hlen. unfold pychar, pystr in *. lia.
Qed.

(** X5.  Every keyword returned starts with a lower-case letter and goes on
    with at least two characters that are lower-case letters, apostrophes
    or hyphens: upper case never survives, nor does a digit or any character
    outside ASCII. *)
Theorem extract_keywords_shape (text : pystr) (top_n : Z) :
  Forall (fun r => keyword_shape (keyword r) = true)
         (extract_keywords text top_n).
Proof.
  rewrite extract_keywords_unfold. apply Forall_forall. intros r Hr.
  apply list_elem_of_fmap in Hr as ([k n] & -> & Hkn). simpl.
  apply elem_of_firstn in Hkn. rewrite sorted_desc_elem in Hkn.
  assert (Hk : k ∈ keys (Counter (List.filter keep_word (tokens text)))).
  { unfold keys. apply list_elem_of_fmap. exists (k, n). split; [reflexivity | exact Hkn]. }
  rewrite keys_Counter_elem, list_elem_of_In, filter_In in Hk.
  destruct Hk as [Htok Hkeep]. apply keep_word_spec in Hkeep as [_ Hlen].
  unfold tokens in Htok. apply in_map_iff in Htok as (t & <- & Ht).
  apply lower_keyword_shape; [|exact Hlen].
  pose proof (word_re_from_shape text [] (or_introl eq_refl)) as Hall.
  rewrite Forall_forall in Hall. apply Hall, list_elem_of_In, Ht.
Qed.


(** ** readability_utils: syllables and the range of the score *)

Lemma syllable_fold_bounds (l : pystr) (n : Z) (b : bool) :
  (n <= fst (fold_left syllable_step l (n, b))
   <= n + Z.of_nat (length (List.filter is_vowel l)))%Z.
Proof.
  revert n b. induction l as [|c l IH]; intros n b.
  { simpl. lia. }
  change (fold_left syllable_step (c :: l) (n, b))
    with (fold_left syllable_step l (syllable_step (n, b) c)).
  cbn [List.filter].
  change (syllable_step (n, b) c)
    with (if is_vowel c && negb b then (n + 1)%Z else n, is_vowel c).
  destruct (is_vowel c) eqn:Hc; destruct b; cbn [andb negb length].
  - specialize (IH n true). unfold pychar in *. lia.
  - specialize (IH (n + 1)%Z true). unfold pychar in *. lia.
  - specialize (IH n false). unfold pychar in *. lia.
  - specialize (IH n false). unfold pychar in *. lia.
Qed.

Lemma length_filter_filter {A : Type} (p q : A -> bool) (l : list A) :
  (length (List.filter p (List.filter q l)) <= length (List.filter p l))%nat.
Proof.
  induction l as [|x l IH]; simpl; [lia|].
  destruct (q x) eqn:Hq, (p x) eqn:Hp; simpl; rewrite ?Hp; simpl; lia.
Qed.

(** X6.  The syllable estimate of a word is at least 1 and at most the
    number of vowels (a, e, i, o, u, y) of its lower-case form, or 1 when it
    has none. *)
Theorem syllable_count_bounds (word : pystr) :
  (1 <= _syllable_count word <= Z.max 1 (Z.of_nat (vowel_count word)))%Z.
Proof.
  unfold _syllable_count, vowel_count.
  set (w := List.filter is_lower (lower word)).
  pose proof (syllable_fold_bounds w 0 false) as [Hlo Hhi].
  pose proof (length_filter_filter is_vowel is_lower (lower word)) as Hf.
  fold w in Hf.
  destruct (endswith w 101%N
            && (1 <? fst (fold_left syllable_step w (0, false)))%Z);
    unfold pychar, pystr in *; lia.
Qed.

Lemma sum_Z_from (l : list Z) (a : Z) :
  Forall (fun x => (1 <= x)%Z) l ->
  (a + Z.of_nat (length l) <= fold_left Z.add l a)%Z.
Proof.
  revert a. induction l as [|x l IH]; intros a H; simpl; [lia|].
  apply Forall_cons in H as [Hx H]. specialize (IH (a + x)%Z H). lia.
Qed.

(** There is at least one syllable per word. *)
Lemma syllables_at_least_words (text : pystr) :
  (Z.of_nat (length (findall_letters text)) <= flesch_syllables_count text)%Z.
Proof.
  unfold flesch_syllables_count, sum_Z.
  pose proof (sum_Z_from (map _syllable_count (findall_letters text)) 0) as H.
  rewrite length_map in H. apply H. apply Forall_forall.
  intros x Hx. apply list_elem_of_fmap in Hx as (w & -> & _).
  apply syllable_count_min.
Qed.

Lemma inject_Z_pos (n : Z) : (0 < n)%Z -> (0 < inject_Z n)%Q.
Proof. intros H. change 0%Q with (inject_Z 0). rewrite <- Zlt_Qlt. exact H. Qed.

(** X7.  The range of the manual Flesch score.  A text with no ASCII letter
    (digits, punctuation, any other script) scores at least 205.82 and is
    rated "Very easy"; a text with at least one word scores below 122.235,
    which is 206.835 - 84.6. *)
Theorem flesch_manual_range (text : pystr) :
  exists s : Q,
    _flesch_reading_ease_manual text = Returned s
    /\ compute_readability None text
       = Returned {| score := py_round s 2; level := interpret s |}
    /\ match findall_letters text with
       | [] => (20582 # 100 <= s)%Q
               /\ interpret s = py "Very easy (5th grade)"
       | _ :: _ => (s < 122235 # 1000)%Q
       end.
Proof.
  eexists. split; [apply flesch_manual_value|]. split.
  { unfold compute_readability, readability_score.
    rewrite flesch_manual_value. reflexivity. }
  pose proof (syllables_at_least_words text) as Hsyl.
  pose proof (flesch_sentences_count_max text) as Hs.
  set (S := flesch_sentences_count text) in *.
  assert (HS : (1 <= S)%Z) by lia.
  assert (HSq : (0 < inject_Z S)%Q) by (apply inject_Z_pos; lia).
  unfold flesch_words_count, flesch_syllables_count in *.
  destruct (findall_letters text) as [|w ws] eqn:Hw.
  - assert (Hwps : (inject_Z 1 / inject_Z S <= 1)%Q).
    { apply Qle_shift_div_r; [exact HSq|].
      rewrite Qmult_1_l, <- Zle_Qle. exact HS. }
    assert (Hpos : (0 <= inject_Z 1 / inject_Z S)%Q).
    { apply Qle_shift_div_l; [exact HSq|]. rewrite Qmult_0_l. discriminate. }
    assert (Hspw : (inject_Z (sum_Z (map _syllable_count [])) / inject_Z 1 == 0)%Q)
      by reflexivity.
    assert (Hge : (20582 # 100
                   <= (206835 # 1000)
                      - (1015 # 1000) * (inject_Z 1 / inject_Z S)
                      - (846 # 10)
                        * (inject_Z (sum_Z (map _syllable_count []))
                           / inject_Z 1))%Q).
    { rewrite Hspw. lra. }
    split; [exact Hge|].
    apply (interpret_bands _). lra.
  - set (W := Z.of_nat (length (w :: ws))) in *.
    set (Y := sum_Z (map _syllable_count (w :: ws))) in *.
    assert (HW : (1 <= W)%Z) by (subst W; simpl length; lia).
    assert (HWq : (0 < inject_Z W)%Q) by (apply inject_Z_pos; lia).
    assert (Hwps : (0 < inject_Z W / inject_Z S)%Q).
    { apply Qlt_shift_div_l; [exact HSq|]. rewrite Qmult_0_l. exact HWq. }
    assert (Hspw : (1 <= inject_Z Y / inject_Z W)%Q).
    { apply Qle_shift_div_l; [exact HWq|]. rewrite Qmult_1_l.
      rewrite <- Zle_Qle. exact Hsyl. }
    lra.
Qed.


(** ** performance_utils: the measured values *)

Lemma round_half_even_nonneg (q : Q) :
  (0 <= q)%Q -> (0 <= round_half_even q)%Z.
Proof.
  intros Hq. unfold round_half_even.
  assert (Hf : (0 <= Qfloor q)%Z).
  { change 0%Z with (Qfloor 0). apply Qfloor_resp_le, Hq. }
  destruct (q - inject_Z (Qfloor q) ?= 1 # 2)%Q; [destruct (Z.even _)| |]; lia.
Qed.

Lemma py_round_nonneg (x : Q) (ndigits : nat) :
  (0 <= x)%Q -> (0 <= py_round x ndigits)%Q.
Proof.
  intros Hx. unfold py_round.
  assert (Hs : (0 < inject_Z (10 ^ Z.of_nat ndigits))%Q).
  { apply inject_Z_pos. apply Z.pow_pos_nonneg; lia. }
  apply Qle_shift_div_l; [exact Hs|]. rewrite Qmult_0_l.
  change 0%Q with (inject_Z 0). rewrite <- Zle_Qle.
  apply round_half_even_nonneg. apply Qmult_le_0_compat; [exact Hx|].
  apply Qlt_le_weak, Hs.
Qed.

Lemma py_round_3 (x : Q) :
  (x - (1 # 2000) <= py_round x 3 <= x + (1 # 2000))%Q.
Proof.
  unfold py_round. change (inject_Z (10 ^ Z.of_nat 3)) with 1000%Q.
  pose proof (round_half_even_close (x * 1000)) as [Hlo Hhi].
  set (k := inject_Z (round_half_even (x * 1000))) in *.
  split.
  - apply Qle_shift_div_l; lra.
  - apply Qle_shift_div_r; lra.
Qed.

(** The size reported is 0 for a body of at most 5 bytes, and for no
    other. *)
Lemma page_size_zero (n : nat) :
  (py_round (inject_Z (Z.of_nat n) / inject_Z 1024) 2 == 0)%Q
  <-> (n <= 5)%nat.
Proof.
  set (x := (inject_Z (Z.of_nat n) / inject_Z 1024)%Q).
  destruct (py_round_2 x) as [Hk _]. rewrite Hk.
  pose proof (round_half_even_close (x * 100)) as [Hlo Hhi].
  set (k := round_half_even (x * 100)) in *.
  assert (Hx : (x * 1024 == inject_Z (Z.of_nat n))%Q).
  { subst x. change (inject_Z 1024) with 1024%Q. field. }
  clearbody k x. split.
  - intros H0.
    assert (Hk0 : (inject_Z k == 0)%Q).
    { rewrite <- (Qmult_div_r (inject_Z k) 100) by discriminate.
      rewrite H0. reflexivity. }
    assert (Hq : (inject_Z (Z.of_nat n) < 6)%Q) by lra.
    change 6%Q with (inject_Z 6) in Hq. rewrite <- Zlt_Qlt in Hq. lia.
  - intros Hn.
    assert (Hq : (inject_Z (Z.of_nat n) <= 5)%Q).
    { change 5%Q with (inject_Z 5). rewrite <- Zle_Qle. lia. }
    assert (Hq0 : (0 <= inject_Z (Z.of_nat n))%Q).
    { change 0%Q with (inject_Z 0). rewrite <- Zle_Qle. lia. }
    assert (Hk1 : (inject_Z k < inject_Z 1)%Q)
      by (change (inject_Z 1) with 1%Q; lra).
    assert (Hk2 : (inject_Z (-1) < inject_Z k)%Q)
      by (change (inject_Z (-1)) with (-1 # 1)%Q; lra).
    rewrite <- Zlt_Qlt in Hk1, Hk2.
    assert (E : k = 0%Z) by lia. rewrite E. reflexivity.
Qed.

(** X8.  When the body is read and the session closes cleanly, whatever
    the HTTP status (a 404 or a 500 is a measurement, not a failure), the
    result carries that status; [response_time_seconds] is less than a
    thousandth away from the time elapsed and not negative when the clock
    did not go back; [page_size_kb] is less than a hundredth away from the
    body length over 1024, not negative, and 0 exactly for a body of at most
    5 bytes. *)
Theorem analyze_performance_measures (w : ProbeWorld) (url : pystr)
    (status_code : Z) (content_length : nat) (end_time : Q) :
  session_get w url (startswith url (py "https"))
  = ProbeReads status_code content_length end_time None ->
  (perf_start w <= end_time)%Q ->
  exists t k : Q,
    analyze_performance w url = Returned (perf_success status_code t k)
    /\ (0 <= t)%Q
    /\ (end_time - perf_start w - (1 # 1000) < t
        < end_time - perf_start w + (1 # 1000))%Q
    /\ (0 <= k)%Q
    /\ (inject_Z (Z.of_nat content_length) / 1024 - (1 # 100) < k
        < inject_Z (Z.of_nat content_length) / 1024 + (1 # 100))%Q
    /\ ((k == 0)%Q <-> (content_length <= 5)%nat).
Proof.
  intros Hp Ht. unfold analyze_performance. rewrite Hp. simpl.
  eexists _, _. split; [reflexivity|]. split; [|split; [|split; [|split]]].
  - apply py_round_nonneg. lra.
  - pose proof (py_round_3 (end_time - perf_start w)). split; lra.
  - apply py_round_nonneg. apply Qle_shift_div_l; [reflexivity|].
    rewrite Qmult_0_l. change 0%Q with (inject_Z 0). rewrite <- Zle_Qle. lia.
  - destruct (py_round_2 (inject_Z (Z.of_nat content_length) / inject_Z 1024))
      as [_ H].
    change (inject_Z 1024) with 1024%Q in *. split; lra.
  - apply page_size_zero.
Qed.

Lemma analyze_performance_measures_witness :
  exists t k : Q,
    analyze_performance (w_probe (quiet_world (HttpRaises connection_error)))
      example_url
    = Returned (perf_success 200 t k)
    /\ (0 <= t)%Q /\ (0 <= k)%Q /\ ~ (k == 0)%Q.
Proof.
  destruct (analyze_performance_measures
              (w_probe (quiet_world (HttpRaises connection_error)))
              example_url 200 2048 (1 # 2) eq_refl)
    as (t & k & H & Ht & _ & Hk & _ & Hz).
  - unfold Qle. simpl. lia.
  - exists t, k. split; [exact H|]. split; [exact Ht|]. split; [exact Hk|].
    intros E. apply Hz in E. lia.
Defined.


(** ** ai_search_optimizer: the suggestion set, key by key *)

Lemma setdefault_append_fresh (key : string) (msg : pystr)
    (m : gmap string (list pystr)) :
  m !! key = None -> setdefault_append key msg m = <[key := [msg]]> m.
Proof. intros H. unfold setdefault_append. rewrite H. reflexivity. Qed.

(** One step of the analysis: the key [k] is written, or nothing is. *)
Lemma step_lookup (k : string) (b : bool) (l : list pystr)
    (m : gmap string (list pystr)) (f : string -> option (list pystr))
    (c : string) :
  (forall c', m !! c' = f c') ->
  (if b then <[k := l]> m else m) !! c
  = if (c =? k)%string then (if b then Some l else f c) else f c.
Proof.
  intros Hm. destruct (String.eqb_spec c k) as [->|Hne]; destruct b;
    rewrite ?lookup_insert_eq, ?lookup_insert_ne by congruence; auto.
Qed.

Section Exact.
Variables (content : pystr) (html : soup).

Lemma check_headings_exact (m : gmap string (list pystr)) :
  check_headings html m
  = if rule_headings html
    then <["headings" := rule_messages "headings" html]> m else m.
Proof.
  unfold check_headings, rule_headings, rule_messages, heading_count,
    find_all, count_tag. simpl String.eqb. cbv iota.
  set (h1 := length (List.filter (named [py "h1"]) (descendants html))).
  set (h2 := length (List.filter (named [py "h2"]) (descendants html))).
  destruct (Z.eqb_spec (Z.of_nat h1) 1) as [E1|E1];
    destruct (Z.ltb_spec (Z.of_nat h2) 2) as [E2|E2];
    destruct (Nat.eqb_spec h1 1) as [N1|N1]; try lia;
    destruct (Nat.ltb_spec h2 2) as [N2|N2]; try lia; reflexivity.
Qed.

Lemma check_summary_exact (m : gmap string (list pystr)) :
  m !! "summary" = None ->
  check_summary html m
  = if rule_summary html
    then <["summary" := rule_messages "summary" html]> m else m.
Proof.
  intros Hm.
  unfold check_summary, rule_summary, rule_messages, first_paragraph, find,
    find_all. simpl String.eqb. cbv iota.
  rewrite head_filter_find.
  destruct (List.find (named [py "p"]) (descendants html)) as [p|].
  - unfold word_count.
    destruct (Z.ltb_spec 50 (Z.of_nat (length (split_ws (get_text p)))));
      destruct (Nat.ltb_spec 50 (length (split_ws (get_text p)))); try lia;
      [apply setdefault_append_fresh, Hm | reflexivity].
  - apply setdefault_append_fresh, Hm.
Qed.

(** The lookups of the result, step by step. *)
Lemma analyze_lookup (category : string) :
  analyze_ai_search_factors content html !! category
  = if rule_fired category content html
    then Some (rule_messages category html) else None.
Proof.
  unfold analyze_ai_search_factors.
  set (m1 := check_headings html ∅).
  assert (H1 : forall c, m1 !! c
    = if (c =? "headings")%string
      then (if rule_headings html
            then Some (rule_messages "headings" html) else None)
      else None).
  { intros c. subst m1. rewrite check_headings_exact.
    rewrite (step_lookup _ _ _ _ (fun _ => None)); [reflexivity|].
    intros c'. apply lookup_empty. }
  set (m2 := check_lists html m1).
  assert (H2 : forall c, m2 !! c
    = if (c =? "lists")%string
      then (if rule_lists html then Some [msg_lists] else None)
      else m1 !! c).
  { intros c. subst m2. rewrite check_lists_fired.
    rewrite setdefault_append_fresh by (rewrite H1; reflexivity).
    rewrite (step_lookup _ _ _ _ (fun c => m1 !! c)) by reflexivity.
    destruct (c =? "lists")%string eqn:E; [|reflexivity].
    apply String.eqb_eq in E. subst c. rewrite H1. reflexivity. }
  set (m3 := check_schema html m2).
  assert (H3 : forall c, m3 !! c
    = if (c =? "schema")%string
      then (if rule_schema html then Some [msg_schema] else None)
      else m2 !! c).
  { intros c. subst m3. rewrite check_schema_fired.
    rewrite setdefault_append_fresh by (rewrite H2, H1; reflexivity).
    rewrite (step_lookup _ _ _ _ (fun c => m2 !! c)) by reflexivity.
    destruct (c =? "schema")%string eqn:E; [|reflexivity].
    apply String.eqb_eq in E. subst c. rewrite H2, H1. reflexivity. }
  set (m4 := check_trust html m3).
  assert (H4 : forall c, m4 !! c
    = if (c =? "trust")%string
      then (if rule_trust html then Some [msg_trust] else None)
      else m3 !! c).
  { intros c. subst m4. rewrite check_trust_fired.
    rewrite setdefault_append_fresh by (rewrite H3, H2, H1; reflexivity).
    rewrite (step_lookup _ _ _ _ (fun c => m3 !! c)) by reflexivity.
    destruct (c =? "trust")%string eqn:E; [|reflexivity].
    apply String.eqb_eq in E. subst c. rewrite H3, H2, H1. reflexivity. }
  set (m5 := check_summary html m4).
  assert (H5 : forall c, m5 !! c
    = if (c =? "summary")%string
      then (if rule_summary html
            then Some (rule_messages "summary" html) else None)
      else m4 !! c).
  { intros c. subst m5.
    rewrite check_summary_exact by (rewrite H4, H3, H2, H1; reflexivity).
    rewrite (step_lookup _ _ _ _ (fun c => m4 !! c)) by reflexivity.
    destruct (c =? "summary")%string eqn:E; [|reflexivity].
    apply String.eqb_eq in E. subst c. rewrite H4, H3, H2, H1. reflexivity. }
  rewrite check_tone_fired.
  rewrite setdefault_append_fresh by (rewrite H5, H4, H3, H2, H1; reflexivity).
  rewrite (step_lookup _ _ _ _ (fun c => m5 !! c)) by reflexivity.
  rewrite H5, H4, H3, H2, H1. unfold rule_fired, rule_messages.
  destruct (String.eqb_spec category "headings") as [->|?]; [reflexivity|].
  destruct (String.eqb_spec category "lists") as [->|?]; [reflexivity|].
  destruct (String.eqb_spec category "schema") as [->|?]; [reflexivity|].
  destruct (String.eqb_spec category "trust") as [->|?]; [reflexivity|].
  destruct (String.eqb_spec category "summary") as [->|?]; [reflexivity|].
  destruct (String.eqb_spec category "tone") as [->|?]; reflexivity.
Qed.

End Exact.

(** X9.  The suggestion set, key by key: a category is present exactly
    when its rule fired, and then holds the messages of the rules that fired
    in it, one message except for [headings], which has one or two, and for
    [summary], whose message depends on whether there is a paragraph; no
    other key is present. *)
Theorem suggestions_exact (content : pystr) (html : soup) (category : string) :
  analyze_ai_search_factors content html !! category
  = if rule_fired category content html
    then Some (rule_messages category html) else None.
Proof. apply analyze_lookup. Qed.


(** X10.  The HTML never changes the tone suggestion, and the content text
    never changes the five others. *)
Theorem suggestions_local (content content' : pystr) (html html' : soup)
    (category : string) :
  analyze_ai_search_factors content html !! "tone"
  = analyze_ai_search_factors content html' !! "tone"
  /\ (category <> "tone"%string ->
      analyze_ai_search_factors content html !! category
      = analyze_ai_search_factors content' html !! category).
Proof.
  rewrite !analyze_lookup. split; [reflexivity|]. intros Hne.
  unfold rule_fired.
  destruct (String.eqb_spec category "tone") as [->|_]; [congruence|].
  reflexivity.
Qed.

(** ** content_analyzer: the main content *)









(** ** content_analyzer: stripped text *)

Lemma lstrip_clean (s : pystr) : starts_clean (lstrip s).
Proof.
  induction s as [|c s IH]; simpl; [exact I|].
  destruct (is_space c) eqn:E; [exact IH | exact E].
Qed.

Lemma lstrip_fixed (s : pystr) : starts_clean s -> lstrip s = s.
Proof. destruct s as [|c s]; simpl; [reflexivity|]. intros ->. reflexivity. Qed.

Lemma lstrip_suffix (s : pystr) : exists p, s = p ++ lstrip s.
Proof.
  induction s as [|c s [p IH]]; simpl; [exists []; reflexivity|].
  destruct (is_space c).
  - exists (c :: p). simpl. f_equal. exact IH.
  - exists []. reflexivity.
Qed.

Lemma starts_clean_app (s t : pystr) :
  s <> [] -> starts_clean s -> starts_clean (s ++ t).
Proof. destruct s; [congruence | intros _ H; exact H]. Qed.

Lemma starts_clean_prefix (s t : pystr) :
  s <> [] -> starts_clean (s ++ t) -> starts_clean s.
Proof. destruct s; [congruence | intros _ H; exact H]. Qed.

Lemma strip_fixed (s : pystr) : tight s -> strip s = s.
Proof.
  intros [H1 H2]. unfold strip, rstrip.
  rewrite (lstrip_fixed s H1), (lstrip_fixed (rev s) H2). apply rev_involutive.
Qed.

(** What [strip] returns neither starts nor ends with white space. *)
Lemma strip_tight (s : pystr) : tight (strip s).
Proof.
  unfold tight, strip, rstrip. rewrite rev_involutive.
  split; [|apply lstrip_clean].
  destruct (lstrip_suffix (rev (lstrip s))) as [p Hp].
  destruct (lstrip (rev (lstrip s))) as [|c u] eqn:Hu; [exact I|].
  apply (starts_clean_prefix _ (rev p)).
  - simpl. intros E. apply app_eq_nil in E as [_ E]. discriminate.
  - rewrite <- rev_app_distr, <- Hp, rev_involutive. apply lstrip_clean.
Qed.

Lemma join_tight (sep : pystr) (l : list pystr) :
  Forall (fun p => p <> [] /\ tight p) l ->
  tight (join sep l) /\ (l <> [] -> join sep l <> []).
Proof.
  induction 1 as [|p l [Hp [Hp1 Hp2]] Hl [IH1 IH2]]; simpl.
  - split; [split; exact I | intros H; exfalso; apply H; reflexivity].
  - destruct l as [|q l]; [split; [split; assumption | intros _; exact Hp]|].
    split.
    + split; [apply starts_clean_app; assumption|].
      rewrite !rev_app_distr, <- app_assoc.
      apply starts_clean_app; [|apply IH1].
      intros E. apply (f_equal (@rev N)) in E. rewrite rev_involutive in E.
      apply IH2; [discriminate | exact E].
    + intros _ E. apply app_eq_nil in E as [E _]. contradiction.
Qed.

Lemma get_text_strip_tight (sep : pystr) (strings : list pystr) :
  strip (get_text_strip sep strings) = get_text_strip sep strings.
Proof.
  apply strip_fixed, join_tight, Forall_forall. intros p Hp.
  apply list_elem_of_In, filter_In in Hp as [Hp Ht].
  apply in_map_iff in Hp as (s & <- & _). split; [|apply strip_tight].
  destruct (strip s); [discriminate | discriminate].
Qed.

(** X12.  The main content of a page, and the text of every link and of
    every heading extracted from it, neither starts nor ends with white
    space: stripping them again changes nothing. *)
Theorem extracted_text_stripped (html_content : soup) :
  strip (extract_main_content html_content) = extract_main_content html_content
  /\ Forall (fun l => strip (link_text l) = link_text l)
            (extract_links html_content)
  /\ Forall (fun h => Forall (fun t => strip t = t) (snd h))
            (extract_headings html_content).
Proof.
  split; [|split].
  - unfold extract_main_content.
    destruct (match find _ _ with Some m => Some m | None => _ end);
      apply get_text_strip_tight.
  - unfold extract_links. apply Forall_forall. intros l Hl.
    apply list_elem_of_fmap in Hl as (a & -> & _). apply get_text_strip_tight.
  - unfold extract_headings. apply Forall_forall. intros h Hh.
    apply list_elem_of_fmap in Hh as (name & -> & _). simpl.
    apply Forall_forall. intros t Ht.
    apply list_elem_of_fmap in Ht as (n & -> & _). apply get_text_strip_tight.
Qed.


(** ** content_analyzer: the shape of the cache *)

Lemma keys_filter_NoDup (p : CacheLink -> bool) (c : TTLCache) :
  NoDup (cache_keys c) -> NoDup (cache_keys (List.filter p c)).
Proof.
  unfold cache_keys. induction c as [|l c IH]; simpl; [auto|].
  intros H. apply NoDup_cons in H as [Hl Hc].
  destruct (p l); simpl; [|apply IH, Hc].
  apply NoDup_cons. split; [|apply IH, Hc].
  intros Hin. apply Hl. apply list_elem_of_fmap in Hin as (x & Hx & Hin).
  apply list_elem_of_fmap. exists x. split; [exact Hx|].
  apply list_elem_of_In, filter_In in Hin. apply list_elem_of_In, Hin.
Qed.

Lemma unlink_no_key (c : TTLCache) (key : pystr) :
  key ∉ cache_keys (unlink c key).
Proof.
  unfold cache_keys, unlink. intros H.
  apply list_elem_of_fmap in H as (l & Hk & Hl).
  apply list_elem_of_In, filter_In in Hl as [_ Hl].
  unfold is_key in Hl. apply negb_true_iff, bool_decide_eq_false in Hl.
  congruence.
Qed.

Lemma unlink_shorter (c : TTLCache) (key : pystr) (link : CacheLink) :
  getlink c key = Some link -> (length (unlink c key) < length c)%nat.
Proof.
  unfold getlink, unlink. induction c as [|l c IH]; simpl; [discriminate|].
  destruct (is_key key l); simpl.
  - intros _. pose proof (length_filter_le (fun l => negb (is_key key l)) c). lia.
  - intros H. specialize (IH H). lia.
Qed.

Lemma cache_ok_tl (c : TTLCache) :
  NoDup (cache_keys c) -> NoDup (cache_keys (tl c)).
Proof.
  destruct c as [|l c]; simpl; [auto|]. unfold cache_keys. simpl.
  intros H. apply NoDup_cons in H. apply H.
Qed.

Lemma keys_snoc_NoDup (c : TTLCache) (link : CacheLink) :
  NoDup (cache_keys c) -> link_key link ∉ cache_keys c ->
  NoDup (cache_keys (c ++ [link])).
Proof.
  unfold cache_keys. rewrite map_app. simpl. intros Hc Hl.
  apply NoDup_app. split; [exact Hc|]. split; [|apply NoDup_singleton].
  intros x Hx Hx'. apply list_elem_of_singleton in Hx' as ->. contradiction.
Qed.

(** A write keeps the shape, and never leaves more than [maxsize]. *)
Lemma cache_setitem_ok (c : TTLCache) (key : pystr) (value : FetchResult)
    (time : Q) :
  cache_ok c -> cache_ok (cache_setitem c key value time).
Proof.
  intros [Hnd Hlen]. unfold cache_setitem.
  set (c1 := expire c time).
  assert (Hnd1 : NoDup (cache_keys c1)) by (apply keys_filter_NoDup, Hnd).
  assert (Hlen1 : (length c1 <= maxsize)%nat).
  { pose proof (length_filter_le (fun l => Qltb time (link_expires l)) c).
    unfold c1, expire. lia. }
  split.
  - apply keys_snoc_NoDup; [|apply unlink_no_key].
    apply keys_filter_NoDup.
    destruct (getlink c1 key); [exact Hnd1|].
    destruct (maxsize <=? length c1)%nat; [apply cache_ok_tl|]; exact Hnd1.
  - rewrite length_app. cbn [length].
    destruct (getlink c1 key) as [link|] eqn:Hl.
    + pose proof (unlink_shorter c1 key link Hl). lia.
    + destruct (Nat.leb_spec maxsize (length c1)) as [Hfull|Hroom].
      * pose proof (length_filter_le (fun l => negb (is_key key l)) (tl c1)) as H.
        fold (unlink (tl c1) key) in H.
        assert (Htl : length (tl c1) = (length c1 - 1)%nat)
          by (destruct c1; simpl; lia).
        unfold maxsize in *. lia.
      * pose proof (length_filter_le (fun l => negb (is_key key l)) c1) as H.
        fold (unlink c1 key) in H. lia.
Qed.

(** A read keeps the shape. *)
Lemma cache_getitem_ok (c : TTLCache) (key : pystr) (now : Q) :
  cache_ok c -> cache_ok (snd (cache_getitem c key now)).
Proof.
  intros [Hnd Hlen]. unfold cache_getitem.
  destruct (getlink c key) as [link|] eqn:Hl; [|split; assumption].
  assert (Hok : cache_ok (unlink c key ++ [link])).
  { split.
    - apply keys_snoc_NoDup; [apply keys_filter_NoDup, Hnd|].
      rewrite (getlink_key c key link Hl). apply unlink_no_key.
    - rewrite length_app. simpl. pose proof (unlink_shorter c key link Hl). lia. }
  destruct (Qltb now (link_expires link)); exact Hok.
Qed.

Lemma fetch_content_ok (w : FetchWorld) (c : TTLCache) (url : pystr) :
  cache_ok c -> cache_ok (fetch_cache (fetch_content w c url)).
Proof.
  intros Hc. unfold fetch_content.
  destruct (cache_contains c url (t_contains w)).
  - pose proof (cache_getitem_ok c url (t_getitem w) Hc) as H.
    destruct (cache_getitem c url (t_getitem w)) as [v c']. exact H.
  - destruct (fetch_try w url); simpl; [apply cache_setitem_ok, Hc | exact Hc].
Qed.

(** X13.  Starting from the empty cache, after any sequence of
    [fetch_content] calls, whatever the network and the clock do, the cache
    holds at most one entry per URL and at most 100 entries. *)
Theorem cache_stays_bounded (calls : list (FetchWorld * pystr)) :
  NoDup (cache_keys (fetch_many calls []))
  /\ (length (fetch_many calls []) <= 100)%nat.
Proof.
  change 100%nat with maxsize. fold (cache_ok (fetch_many calls [])).
  assert (H : forall c, cache_ok c -> cache_ok (fetch_many calls c)).
  { unfold fetch_many. induction calls as [|[w url] calls IH]; intros c Hc.
    - exact Hc.
    - simpl. apply IH, fetch_content_ok, Hc. }
  apply H. split; [constructor | unfold maxsize; simpl; lia].
Qed.


(** ** content_analyzer: what a call does to the other entries *)

Lemma find_filter {A : Type} (q p : A -> bool) (l : list A) (x : A) :
  List.find q l = Some x -> p x = true ->
  List.find q (List.filter p l) = Some x.
Proof.
  induction l as [|y l IH]; simpl; [discriminate|].
  destruct (q y) eqn:Hq.
  - intros E Hp. injection E as ->. rewrite Hp. simpl. rewrite Hq. reflexivity.
  - intros E Hp. destruct (p y); simpl; [rewrite Hq|]; apply IH; assumption.
Qed.

Lemma getlink_app_Some (c c' : TTLCache) (key : pystr) (link : CacheLink) :
  getlink c key = Some link -> getlink (c ++ c') key = Some link.
Proof.
  unfold getlink. induction c as [|l c IH]; simpl; [discriminate|].
  destruct (is_key key l); [auto | exact IH].
Qed.

Lemma getlink_unlink_other (c : TTLCache) (key key' : pystr)
    (link : CacheLink) :
  key' <> key -> getlink c key' = Some link ->
  getlink (unlink c key) key' = Some link.
Proof.
  intros Hne Hl. unfold getlink, unlink. apply find_filter; [exact Hl|].
  apply getlink_key in Hl. unfold is_key.
  rewrite bool_decide_eq_false_2 by congruence. reflexivity.
Qed.

Lemma Forall_tl {A : Type} (P : A -> Prop) (l : list A) :
  Forall P l -> Forall P (tl l).
Proof. destruct 1; [constructor | assumption]. Qed.

Lemma expire_fresh (c : TTLCache) (time : Q) :
  Forall (fun l => (time < link_expires l)%Q) (expire c time).
Proof.
  unfold expire. apply Forall_forall. intros l Hl.
  apply list_elem_of_In, filter_In in Hl as [_ Hl]. apply Qltb_true, Hl.
Qed.

(** X14.  A fetch that succeeds purges the cache: in the cache it leaves,
    no entry has reached its expiry at the time of the write, and the new
    entry expires 3600 seconds after it. *)
Theorem fetch_purges_expired (w : FetchWorld) (c : TTLCache) (url : pystr)
    (r : FetchResult) :
  cache_contains c url (t_contains w) = false ->
  fetch_try w url = Returned r ->
  Forall (fun l => (t_setitem w < link_expires l)%Q)
         (fetch_cache (fetch_content w c url))
  /\ getlink (fetch_cache (fetch_content w c url)) url
     = Some {| link_key := url; link_value := r;
               link_expires := (t_setitem w + 3600)%Q |}.
Proof.
  intros Hmiss Htry. rewrite (fetch_content_miss w c url Hmiss), Htry. simpl.
  split; [|apply getlink_setitem].
  unfold cache_setitem. apply Forall_app. split.
  - apply Forall_filter.
    destruct (getlink (expire c (t_setitem w)) url);
      [|destruct (maxsize <=? _)%nat; [apply Forall_tl|]]; apply expire_fresh.
  - constructor; [|constructor]. simpl. unfold ttl. lra.
Qed.

Lemma fetch_purges_expired_witness :
  Forall (fun l => (5 < link_expires l)%Q)
         (fetch_cache
            (fetch_content (world_at 5 (HttpResponse 200 tidy_html)) []
               example_url)).
Proof.
  destruct (extract_outcome tidy_html) as [r Hr].
  apply (fetch_purges_expired (world_at 5 (HttpResponse 200 tidy_html)) []
           example_url r).
  - reflexivity.
  - exact Hr.
Defined.

(** X15.  A fetch for one URL leaves the entry of another URL as it was,
    provided that entry has not expired at the time of the write and the
    cache is not full. *)
Theorem write_keeps_others (w : FetchWorld) (c : TTLCache) (url url' : pystr)
    (r : FetchResult) (link : CacheLink) :
  cache_contains c url (t_contains w) = false ->
  fetch_try w url = Returned r ->
  url' <> url ->
  getlink c url' = Some link ->
  (t_setitem w < link_expires link)%Q ->
  (length c < maxsize)%nat ->
  getlink (fetch_cache (fetch_content w c url)) url' = Some link.
Proof.
  intros Hmiss Htry Hne Hl Hexp Hroom.
  rewrite (fetch_content_miss w c url Hmiss), Htry. simpl.
  unfold cache_setitem. apply getlink_app_Some, getlink_unlink_other; [exact Hne|].
  assert (Hl1 : getlink (expire c (t_setitem w)) url' = Some link).
  { unfold getlink, expire. apply find_filter; [exact Hl|]. apply Qltb_true, Hexp. }
  destruct (getlink (expire c (t_setitem w)) url); [exact Hl1|].
  destruct (Nat.leb_spec maxsize (length (expire c (t_setitem w))))
    as [Hfull|_]; [|exact Hl1].
  pose proof (length_filter_le
                (fun l => Qltb (t_setitem w) (link_expires l)) c) as H.
  unfold expire in Hfull. lia.
Qed.


Lemma write_keeps_others_witness :
  let c := fetch_cache
             (fetch_content (world_at 0 (HttpResponse 200 tidy_html)) []
                other_url) in
  exists link,
    getlink c other_url = Some link
    /\ getlink
         (fetch_cache
            (fetch_content (world_at 1 (HttpResponse 200 tidy_html)) c
               example_url))
         other_url
       = Some link.
Proof.
  intros c. destruct (extract_outcome tidy_html) as [r Hr].
  assert (Hc : c = cache_setitem [] other_url r 0).
  { subst c. rewrite fetch_content_miss by reflexivity.
    change (fetch_try (world_at 0 (HttpResponse 200 tidy_html)) other_url)
      with (extract tidy_html).
    rewrite Hr. reflexivity. }
  eexists. split; [rewrite Hc; apply getlink_setitem|].
  apply (write_keeps_others (world_at 1 (HttpResponse 200 tidy_html)) c
           example_url other_url r).
  - rewrite Hc. reflexivity.
  - exact Hr.
  - intros E. vm_compute in E. discriminate E.
  - rewrite Hc. apply getlink_setitem.
  - simpl. unfold Qlt. simpl. lia.
  - rewrite Hc. simpl. unfold maxsize. lia.
Defined.

Lemma unlink_absent (c : TTLCache) (key : pystr) :
  key ∉ cache_keys c -> unlink c key = c.
Proof.
  unfold cache_keys, unlink. induction c as [|l c IH]; simpl; [reflexivity|].
  intros H. apply not_elem_of_cons in H as [Hl Hc]. unfold is_key at 1.
  rewrite bool_decide_eq_false_2 by congruence. simpl. f_equal. apply IH, Hc.
Qed.

Lemma getlink_split (c : TTLCache) (key : pystr) (link : CacheLink) :
  NoDup (cache_keys c) -> getlink c key = Some link ->
  c ≡ₚ link :: unlink c key.
Proof.
  unfold getlink. induction c as [|l c IH]; simpl; [discriminate|].
  intros Hnd H. unfold cache_keys in Hnd. simpl in Hnd.
  apply NoDup_cons in Hnd as [Hl Hc].
  destruct (is_key key l) eqn:Hk; simpl.
  - injection H as ->. unfold is_key in Hk. apply bool_decide_eq_true in Hk.
    fold (unlink c key). rewrite unlink_absent; [reflexivity|].
    rewrite <- Hk. exact Hl.
  - fold (unlink c key). rewrite (IH Hc H) at 1. apply Permutation_swap.
Qed.

(** X16.  A call served from the cache adds and drops no entry: the cache it
    leaves holds the same entries, the one read moved to the end of the
    order of eviction. *)
Theorem hit_keeps_entries (w : FetchWorld) (c : TTLCache) (url : pystr) :
  NoDup (cache_keys c) ->
  cache_contains c url (t_contains w) = true ->
  fetch_cache (fetch_content w c url) ≡ₚ c
  /\ exists link,
       getlink c url = Some link
       /\ last (fetch_cache (fetch_content w c url)) = Some link.
Proof.
  intros Hnd Hhit.
  destruct (fetch_content_hit w c url Hhit) as (link & Hl & _ & _ & Hc & _).
  rewrite Hc. split.
  - rewrite (getlink_split c url link Hnd Hl) at 2.
    symmetry. apply Permutation_cons_append.
  - exists link. split; [exact Hl | apply last_snoc].
Qed.


Lemma hit_keeps_entries_witness :
  let c := fetch_cache
             (fetch_content (world_at 0 (HttpResponse 200 tidy_html)) []
                example_url) in
  fetch_cache
    (fetch_content (world_at 1 (HttpRaises connection_error)) c example_url)
  ≡ₚ c.
Proof.
  intros c. destruct (extract_outcome tidy_html) as [r Hr].
  assert (Hc : c = cache_setitem [] example_url r 0).
  { subst c. rewrite fetch_content_miss by reflexivity.
    change (fetch_try (world_at 0 (HttpResponse 200 tidy_html)) example_url)
      with (extract tidy_html).
    rewrite Hr. reflexivity. }
  apply (hit_keeps_entries (world_at 1 (HttpRaises connection_error)) c
           example_url).
  - rewrite Hc. unfold cache_keys. simpl. apply NoDup_singleton.
  - rewrite Hc. reflexivity.
Defined.

(** X17.  Eviction is by least recent use, not by age: the entry a call has
    just been served from is still there after the next call writes a new
    URL, however full the cache is, as long as it has not expired at the
    time of that write. *)
Theorem served_entry_not_evicted (w w' : FetchWorld) (c : TTLCache)
    (url url' : pystr) (r : FetchResult) (link : CacheLink) :
  getlink c url = Some link ->
  cache_contains c url (t_contains w) = true ->
  url' <> url ->
  let c1 := fetch_cache (fetch_content w c url) in
  cache_contains c1 url' (t_contains w') = false ->
  fetch_try w' url' = Returned r ->
  (t_setitem w' < link_expires link)%Q ->
  getlink (fetch_cache (fetch_content w' c1 url')) url = Some link.
Proof.
  intros Hl Hhit Hne c1 Hmiss Htry Hexp.
  destruct (fetch_content_hit w c url Hhit) as (link' & Hl' & _ & _ & Hc & _).
  rewrite Hl in Hl'. injection Hl' as <-.
  rewrite (fetch_content_miss w' c1 url' Hmiss), Htry. simpl.
  subst c1. rewrite Hc. unfold cache_setitem.
  set (A := expire (unlink c url) (t_setitem w')).
  assert (HA : expire (unlink c url ++ [link]) (t_setitem w') = A ++ [link]).
  { unfold expire. rewrite List.filter_app. simpl.
    apply Qltb_true in Hexp. rewrite Hexp. reflexivity. }
  rewrite HA.
  assert (HnoA : Forall (fun l => is_key url l = false) A).
  { apply Forall_filter, unlink_no_link. }
  assert (Hkey : is_key url link = true).
  { unfold is_key. apply bool_decide_eq_true, (getlink_key c url link Hl). }
  assert (Hkey' : is_key url' link = false).
  { unfold is_key. apply bool_decide_eq_false.
    rewrite (getlink_key c url link Hl). congruence. }
  assert (Hgoal : forall A', Forall (fun l => is_key url l = false) A' ->
            getlink (unlink (A' ++ [link]) url'
                     ++ [{| link_key := url'; link_value := r;
                            link_expires := (t_setitem w' + ttl)%Q |}]) url
            = Some link).
  { intros A' HA'. apply getlink_app_Some. unfold unlink.
    rewrite List.filter_app. simpl. rewrite Hkey'. simpl.
    rewrite getlink_app_None by (apply getlink_none, Forall_filter, HA').
    unfold getlink. simpl. rewrite Hkey. reflexivity. }
  destruct (getlink (A ++ [link]) url'); [apply Hgoal, HnoA|].
  destruct (Nat.leb_spec maxsize (length (A ++ [link]))) as [Hfull|_];
    [|apply Hgoal, HnoA].
  destruct A as [|a A]; [simpl in Hfull; unfold maxsize in Hfull; lia|].
  simpl tl. apply Hgoal. apply Forall_cons in HnoA. apply HnoA.
Qed.

Lemma served_entry_not_evicted_witness :
  let c := fetch_cache
             (fetch_content (world_at 0 (HttpResponse 200 tidy_html)) []
                example_url) in
  let c1 := fetch_cache
              (fetch_content (world_at 1 (HttpRaises connection_error)) c
                 example_url) in
  exists link,
    getlink c example_url = Some link
    /\ getlink
         (fetch_cache
            (fetch_content (world_at 2 (HttpResponse 200 tidy_html)) c1
               other_url))
         example_url
       = Some link.
Proof.
  intros c c1. destruct (extract_outcome tidy_html) as [r Hr].
  assert (Hc : c = cache_setitem [] example_url r 0).
  { subst c. rewrite fetch_content_miss by reflexivity.
    change (fetch_try (world_at 0 (HttpResponse 200 tidy_html)) example_url)
      with (extract tidy_html).
    rewrite Hr. reflexivity. }
  eexists. split; [rewrite Hc; apply getlink_setitem|].
  subst c1.
  apply (served_entry_not_evicted
           (world_at 1 (HttpRaises connection_error))
           (world_at 2 (HttpResponse 200 tidy_html)) c example_url other_url r).
  - rewrite Hc. apply getlink_setitem.
  - rewrite Hc. reflexivity.
  - intros E. vm_compute in E. discriminate E.
  - rewrite Hc. reflexivity.
  - exact Hr.
  - simpl. unfold Qlt. simpl. lia.
Defined.


(** ** seo_analyzer: the shape of every report *)

(** X18.  The cache is asked twice, once for membership and once for the
    entry.  When the entry expires between the two, [fetch_content] raises
    [KeyError] without a request, and [analyze_url] reports it as an
    unexpected error with no stage run after the fetch.  The message of the
    exception is [repr(url)], here for a URL made of ASCII characters. *)
Theorem expiry_between_test_and_read (w : World) (url : pystr)
    (link : CacheLink) :
  getlink (w_cache w) url = Some link ->
  (t_contains (w_fetch w) < link_expires link)%Q ->
  (link_expires link <= t_getitem (w_fetch w))%Q ->
  exists exc : exn,
    fetch_value (fetch_content (w_fetch w) (w_cache w) url) = Raised exc
    /\ exn_class exc = "KeyError"
    /\ (forallb is_ascii url = true -> exn_str exc = py_repr url)
    /\ fetch_requests (fetch_content (w_fetch w) (w_cache w) url) = []
    /\ analyze_url (package_stages w) url
       = {| run_report :=
              <["error" := unexpected exc]> {[ "url" := RStr url ]};
            run_calls := [Fetch] |}.
Proof.
  intros Hl Hc Hg.
  assert (Hhit : cache_contains (w_cache w) url (t_contains (w_fetch w)) = true).
  { unfold cache_contains. rewrite Hl. apply Qltb_true, Hc. }
  destruct (fetch_content_hit _ _ url Hhit) as (link' & Hl' & _ & Hreq & _ & Hv).
  rewrite Hl in Hl'. injection Hl' as <-.
  apply Qltb_false in Hg. rewrite Hg in Hv.
  exists (key_error url). split; [exact Hv|]. split; [reflexivity|].
  split; [reflexivity|]. split; [exact Hreq|].
  run_analyze. rewrite Hv. reflexivity.
Qed.

(** The URL holds a single quote, so [repr] puts it between double ones. *)
Lemma expiry_between_test_and_read_witness :
  analyze_url (package_stages race_world) quoted_url
  = {| run_report :=
         <["error" := RStr (py "Unexpected error: "
                            ++ [34%N] ++ quoted_url ++ [34%N])]>
           {[ "url" := RStr quoted_url ]};
       run_calls := [Fetch] |}.
Proof.
  destruct (expiry_between_test_and_read race_world quoted_url
              {| link_key := quoted_url; link_value := example_result;
                 link_expires := 3600 |})
    as (exc & _ & _ & Hstr & _ & Hrun).
  - reflexivity.
  - simpl. unfold Qlt. simpl. lia.
  - simpl. unfold Qle. simpl. lia.
  - rewrite Hrun. unfold unexpected. rewrite Hstr by reflexivity.
    reflexivity.
Defined.

Lemma analyze_performance_returns (w : ProbeWorld) (url : pystr) :
  exists pf, analyze_performance w url = Returned pf.
Proof.
  unfold analyze_performance.
  destruct (session_get w url (startswith url (py "https")))
    as [e|status_code content_length end_time [e|]]; simpl; eexists; reflexivity.
Qed.

Lemma compute_readability_returns (textstat : textstat_t) (text : pystr) :
  exists rd, compute_readability textstat text = Returned rd.
Proof.
  unfold compute_readability.
  destruct (readability_score_returns textstat text) as [s ->]. simpl.
  eexists. reflexivity.
Qed.

(** X19.  With the stages of the package, a fetch that succeeds always
    leads to a complete report: all five stages run, the report has the
    keys [url], [keyword_analysis], [readability], [performance] and
    [ai_search_optimization], and no [error].  A probe that fails does not
    abort the analysis: its error is inside [performance]. *)
Theorem analyze_url_complete (w : World) (url : pystr) (cd : FetchResult) :
  st_fetch_content (package_stages w) url = Returned (Some cd) ->
  exists rd pf,
    compute_readability (w_textstat w) (content cd) = Returned rd
    /\ analyze_performance (w_probe w) url = Returned pf
    /\ analyze_url (package_stages w) url
       = {| run_report :=
              <["ai_search_optimization" :=
                  RSuggestions
                    (analyze_ai_search_factors (content cd) (full_html cd))]>
              (<["performance" := RPerformance pf]>
              (<["readability" := RReadability rd]>
              (<["keyword_analysis" :=
                   RKeywords (extract_keywords (content cd) default_top_n)]>
                 {[ "url" := RStr url ]})));
            run_calls := all_stages |}
    /\ run_report (analyze_url (package_stages w) url) !! "error" = None.
Proof.
  intros Hf.
  destruct (compute_readability_returns (w_textstat w) (content cd)) as [rd Hrd].
  destruct (analyze_performance_returns (w_probe w) url) as [pf Hpf].
  exists rd, pf. split; [exact Hrd|]. split; [exact Hpf|].
  assert (E : analyze_url (package_stages w) url
    = {| run_report :=
           <["ai_search_optimization" :=
               RSuggestions
                 (analyze_ai_search_factors (content cd) (full_html cd))]>
           (<["performance" := RPerformance pf]>
           (<["readability" := RReadability rd]>
           (<["keyword_analysis" :=
                RKeywords (extract_keywords (content cd) default_top_n)]>
              {[ "url" := RStr url ]})));
         run_calls := all_stages |}).
  { run_analyze. simpl in Hf. rewrite Hf, Hrd, Hpf. reflexivity. }
  split; [exact E|]. rewrite E. reflexivity.
Qed.

Lemma analyze_url_complete_witness :
  run_calls
    (analyze_url (package_stages (quiet_world (HttpResponse 200 tidy_html)))
       example_url)
  = all_stages
  /\ run_report
       (analyze_url (package_stages (quiet_world (HttpResponse 200 tidy_html)))
          example_url) !! "error"
     = None.
Proof.
  destruct (extract_outcome tidy_html) as [r Hr].
  assert (Hf : st_fetch_content
                 (package_stages (quiet_world (HttpResponse 200 tidy_html)))
                 example_url
               = Returned (Some r)).
  { change (fetch_value
              (fetch_content (world_at 0 (HttpResponse 200 tidy_html)) []
                 example_url)
            = Returned (Some r)).
    rewrite fetch_content_miss by reflexivity.
    change (fetch_try (world_at 0 (HttpResponse 200 tidy_html)) example_url)
      with (extract tidy_html).
    rewrite Hr. reflexivity. }
  destruct (analyze_url_complete _ example_url r Hf)
    as (rd & pf & _ & _ & E & Herr).
  split; [rewrite E; reflexivity | exact Herr].
Defined.


(** X20.  Whatever the five stages do, return or raise, the report holds
    the URL it was asked for, the stages called are a non-empty prefix of
    the five in their order, and exactly one of [error] and
    [ai_search_optimization], the last field to be assigned, is present. *)
Theorem analyze_url_report_shape (st : Stages) (url : pystr) :
  let report := run_report (analyze_url st url) in
  report !! "url" = Some (RStr url)
  /\ (exists n, run_calls (analyze_url st url) = firstn (S n) all_stages)
  /\ (report !! "error" = None
      /\ is_Some (report !! "ai_search_optimization")
      \/ is_Some (report !! "error")
         /\ report !! "ai_search_optimization" = None).
Proof.
  run_analyze.
  destruct (st_fetch_content st url) as [[cd|]|e]; simpl;
    [|split; [reflexivity|];
      split; [exists 0%nat; reflexivity | right; split; [eexists|]; reflexivity]..].
  destruct (st_extract_keywords st (content cd)) as [kw|e]; simpl;
    [|split; [reflexivity|];
      split; [exists 1%nat; reflexivity | right; split; [eexists|]; reflexivity]].
  destruct (st_compute_readability st (content cd)) as [rd|e]; simpl;
    [|split; [reflexivity|];
      split; [exists 2%nat; reflexivity | right; split; [eexists|]; reflexivity]].
  destruct (st_analyze_performance st url) as [pf|e]; simpl;
    [|split; [reflexivity|];
      split; [exists 3%nat; reflexivity | right; split; [eexists|]; reflexivity]].
  destruct (st_analyze_ai_search_factors st (content cd) (full_html cd))
    as [ai|e]; simpl;
    (split; [reflexivity|]; split; [exists 4%nat; reflexivity|]).
  - left. split; [|eexists]; reflexivity.
  - right. split; [eexists|]; reflexivity.
Qed.


(** ** app.py *)

Lemma handle_unsubscribed (st : Stages) (r : route)
    (session : gmap string session_value) (start t0 t1 : Z) :
  session !! "trial_start" = Some (SDatetime start) ->
  session !! "subscribed" = None ->
  is_payment r = false ->
  fst (handle st r session t0 t1) = session
  /\ (is_index r = true ->
      snd (handle st r session t0 t1) = trial_answer start t1).
Proof.
  intros Hs Hsub Hr. unfold handle, start_trial_if_needed. rewrite Hs.
  destruct r; try discriminate; simpl; (split; [reflexivity|]);
    try discriminate.
  intros _. unfold index, _trial_expired, session_not, trial_answer.
  rewrite Hs, Hsub. simpl. rewrite andb_true_r. reflexivity.
Qed.

Lemma serve_unsubscribed (st : Stages) (requests : list (route * Z * Z))
    (session : gmap string session_value) (start : Z) :
  session !! "trial_start" = Some (SDatetime start) ->
  session !! "subscribed" = None ->
  Forall (fun req => is_payment (fst (fst req)) = false) requests ->
  Forall2 (fun req resp =>
             is_index (fst (fst req)) = true ->
             resp = trial_answer start (snd req))
          requests (snd (serve st requests session)).
Proof.
  intros Hs Hsub Hall. revert session Hs Hsub.
  induction Hall as [|[[r t0] t1] requests Hr Hall IH]; intros session Hs Hsub.
  - constructor.
  - simpl in Hr. simpl serve.
    destruct (handle_unsubscribed st r session start t0 t1 Hs Hsub Hr)
      as [Hfst Hsnd].
    destruct (handle st r session t0 t1) as [session' resp]. simpl in *.
    subst session'. specialize (IH session Hs Hsub).
    destruct (serve st requests session) as [final resps]. simpl in *.
    constructor; [exact Hsnd | exact IH].
Qed.

(** X21.  The free trial runs from the first request of a new visitor and
    cannot be extended by coming back: as long as no payment is made, every
    request to the main page made more than 24 hours after the hook of the
    first request is redirected to the subscription page, and every other
    one is served. *)
Theorem trial_runs_from_first_request (st : Stages)
    (session : gmap string session_value) (r : route) (t0 t1 : Z)
    (requests : list (route * Z * Z)) :
  session !! "trial_start" = None ->
  session !! "subscribed" = None ->
  Forall (fun req => is_payment (fst (fst req)) = false)
         ((r, t0, t1) :: requests) ->
  Forall2 (fun req resp =>
             is_index (fst (fst req)) = true ->
             resp = trial_answer t0 (snd req))
          ((r, t0, t1) :: requests)
          (snd (serve st ((r, t0, t1) :: requests) session)).
Proof.
  intros Hs Hsub Hall.
  set (s1 := <["trial_start" := SDatetime t0]> session).
  assert (Hs1 : s1 !! "trial_start" = Some (SDatetime t0))
    by apply lookup_insert_eq.
  assert (Hsub1 : s1 !! "subscribed" = None).
  { subst s1. rewrite lookup_insert_ne by discriminate. exact Hsub. }
  assert (Hstart : forall t, start_trial_if_needed s1 t = s1).
  { intros t. unfold start_trial_if_needed. rewrite Hs1. reflexivity. }
  assert (Hh : handle st r session t0 t1 = handle st r s1 t0 t1).
  { unfold handle. rewrite Hstart. unfold start_trial_if_needed.
    rewrite Hs. reflexivity. }
  assert (Hserve : serve st ((r, t0, t1) :: requests) session
                   = serve st ((r, t0, t1) :: requests) s1).
  { simpl. rewrite Hh. reflexivity. }
  rewrite Hserve. apply serve_unsubscribed; assumption.
Qed.

Lemma trial_runs_from_first_request_witness :
  snd (serve (package_stages (quiet_world (HttpRaises connection_error)))
         three_visits ∅)
  = [Render "index.html"; Render "index.html"; Redirect "subscribe"].
Proof.
  assert (Hall : Forall (fun req : route * Z * Z =>
                           is_payment (fst (fst req)) = false) three_visits)
    by (repeat constructor).
  pose proof (trial_runs_from_first_request
                (package_stages (quiet_world (HttpRaises connection_error)))
                ∅ Index 0 0 (tl three_visits)
                (lookup_empty _) (lookup_empty _) Hall) as H.
  change ((Index, 0, 0)%Z :: tl three_visits) with three_visits in H.
  unfold three_visits in H at 1.
  apply Forall2_cons_inv_l in H as (r1 & k1 & H1 & H & E1).
  apply Forall2_cons_inv_l in H as (r2 & k2 & H2 & H & E2).
  apply Forall2_cons_inv_l in H as (r3 & k3 & H3 & H & E3).
  apply Forall2_nil_inv_l in H. subst k3 k2 k1.
  rewrite E1, (H1 eq_refl), (H2 eq_refl), (H3 eq_refl). reflexivity.
Defined.


Lemma handle_subscribed (st : Stages) (r : route)
    (session : gmap string session_value) (t0 t1 : Z) :
  session !! "subscribed" = Some (SBool true) ->
  fst (handle st r session t0 t1) !! "subscribed" = Some (SBool true)
  /\ (is_index r = true ->
      snd (handle st r session t0 t1) = Render "index.html").
Proof.
  intros Hsub.
  assert (Hsub' : start_trial_if_needed session t0 !! "subscribed"
                  = Some (SBool true)).
  { unfold start_trial_if_needed. destruct (session !! "trial_start");
      [exact Hsub|]. rewrite lookup_insert_ne by discriminate. exact Hsub. }
  unfold handle. destruct r; simpl; (split; [|try discriminate]);
    try exact Hsub'.
  - intros _. unfold index, session_not. rewrite Hsub'. simpl.
    rewrite andb_false_r. reflexivity.
  - rewrite lookup_insert_ne by discriminate. apply lookup_insert_eq.
Qed.

Lemma serve_subscribed (st : Stages) (requests : list (route * Z * Z))
    (session : gmap string session_value) :
  session !! "subscribed" = Some (SBool true) ->
  Forall2 (fun req resp =>
             is_index (fst (fst req)) = true -> resp = Render "index.html")
          requests (snd (serve st requests session)).
Proof.
  revert session. induction requests as [|[[r t0] t1] requests IH];
    intros session Hsub.
  - constructor.
  - simpl serve.
    destruct (handle_subscribed st r session t0 t1 Hsub) as [Hfst Hsnd].
    destruct (handle st r session t0 t1) as [session' resp]. simpl in *.
    specialize (IH session' Hfst).
    destruct (serve st requests session') as [final resps]. simpl in *.
    constructor; [exact Hsnd | exact IH].
Qed.

(** X22.  A payment unlocks the main page for good: whatever the session
    held before and however late the visitor comes back, after a request to
    [/payment_success] every request to the main page is served, none is
    redirected. *)
Theorem payment_unlocks (st : Stages) (session : gmap string session_value)
    (t0 t1 : Z) (requests : list (route * Z * Z)) :
  exists resps,
    snd (serve st ((PaymentSuccess, t0, t1) :: requests) session)
    = Redirect "index" :: resps
    /\ Forall2 (fun req resp =>
                  is_index (fst (fst req)) = true ->
                  resp = Render "index.html")
               requests resps.
Proof.
  set (s1 := <["trial_start" := SDatetime t1]>
               (<["subscribed" := SBool true]>
                  (start_trial_if_needed session t0))).
  assert (Hh : handle st PaymentSuccess session t0 t1 = (s1, Redirect "index"))
    by reflexivity.
  assert (Hsub : s1 !! "subscribed" = Some (SBool true)).
  { subst s1. rewrite lookup_insert_ne by discriminate. apply lookup_insert_eq. }
  pose proof (serve_subscribed st requests s1 Hsub) as H.
  cbn [serve]. rewrite Hh.
  destruct (serve st requests s1) as [final resps]. simpl in *.
  exists resps. split; [reflexivity | exact H].
Qed.

(** X23.  The view of the API has no handler around its first two lines:
    what [request.get_json()] raises on a request without JSON leaves the
    view, and so does the [AttributeError] of a body that is not an object.
    It answers 400 without calling a stage when the body is falsy or the URL
    is missing or empty; and when the fetch fails it still answers 200, with
    the report that holds the URL and the error.  The session and the clock
    play no part: the API is served to a visitor whose trial has expired. *)
Theorem api_analyze_statuses (st : Stages)
    (session : gmap string session_value) (t0 t1 : Z) :
  (forall e, api_analyze st (GetJsonRaises e) = (Propagates e, []))
  /\ (forall type_name,
        api_analyze st (BodyNoGet type_name)
        = (Propagates (no_get type_name), []))
  /\ api_analyze st BodyFalsy = (Json 400 (JError (py "No URL provided")), [])
  /\ api_analyze st (BodyObject None)
     = (Json 400 (JError (py "No URL provided")), [])
  /\ api_analyze st (BodyObject (Some []))
     = (Json 400 (JError (py "No URL provided")), [])
  /\ forall url,
       url <> [] ->
       st_fetch_content st url = Returned None ->
       snd (handle st (ApiAnalyze (BodyObject (Some url))) session t0 t1)
       = Json 200 (JReport (<["error" := RStr msg_fetch_failed]>
                              {[ "url" := RStr url ]}))
       /\ snd (api_analyze st (BodyObject (Some url))) = [Fetch].
Proof.
  split; [reflexivity|]. split; [reflexivity|]. split; [reflexivity|].
  split; [reflexivity|]. split; [reflexivity|].
  intros url Hurl Hf. unfold handle, api_analyze.
  destruct url as [|c url]; [congruence|]. simpl truthy. simpl negb. cbv iota.
  assert (E : analyze_url st (c :: url)
              = {| run_report :=
                     <["error" := RStr msg_fetch_failed]>
                       {[ "url" := RStr (c :: url) ]};
                   run_calls := [Fetch] |}).
  { run_analyze. rewrite Hf. reflexivity. }
  rewrite E. split; reflexivity.
Qed.

Lemma api_analyze_statuses_witness :
  snd (handle (package_stages (quiet_world (HttpRaises connection_error)))
         (ApiAnalyze (BodyObject (Some example_url)))
         {[ "trial_start" := SDatetime 0 ]} 90000000000 90000000000)
  = Json 200 (JReport (<["error" := RStr msg_fetch_failed]>
                         {[ "url" := RStr example_url ]})).
Proof.
  destruct (api_analyze_statuses
              (package_stages (quiet_world (HttpRaises connection_error)))
              {[ "trial_start" := SDatetime 0 ]} 90000000000 90000000000)
    as (_ & _ & _ & _ & _ & H).
  apply (H example_url).
  - discriminate.
  - reflexivity.
Defined.
